(** * The product-search widget of sitn-product-search.ts

    A shallow embedding of the custom element [SitnProductSearch]: its
    private fields, the browser objects it talks to (timers, abort
    controllers, pending fetches, intersection observers, the shadow DOM),
    every method of the class as a state transformer, and the event loop as
    a step function over the events the browser can deliver. *)

From Stdlib Require Import List String Ascii Bool Arith Lia.
Import ListNotations.
Open Scope string_scope.
Open Scope nat_scope.
Open Scope list_scope.

(** ** Data received from the catalogue *)

Record Product := { label : string; metadata : string }.

Record ApiResponse := {
  count : nat;
  next : option string;
  previous : option string;
  results : list Product
}.

(** JavaScript truthiness of a [string | null]: [null] and the empty string
    are falsy. *)
Definition truthy (s : option string) : bool :=
  match s with
  | None => false
  | Some EmptyString => false
  | Some (String _ _) => true
  end.

(** ** Strings and [encodeURIComponent]

    A JavaScript string is a sequence of UTF-16 code units.  It is kept
    here as the bytes of its WTF-8 encoding: UTF-8, in which the two code
    units of a surrogate pair are the four bytes of the code point they
    denote, extended to a surrogate that is not part of a pair, encoded
    like any other code point of its range as the three bytes
    [ED A0..BF 80..BF].  Well-formed UTF-8 never has a byte [A0..BF]
    after [ED], so a string holds a lone surrogate exactly when its bytes
    do.

    [encodeURIComponent] throws a URIError on a string that holds a lone
    surrogate; otherwise every byte outside
    [A-Z a-z 0-9 - _ . ! ~ * ' ( )] becomes [%XX]. *)

Definition unreserved (c : ascii) : bool :=
  let n := nat_of_ascii c in
  ((65 <=? n) && (n <=? 90)) || ((97 <=? n) && (n <=? 122))
  || ((48 <=? n) && (n <=? 57))
  || existsb (Ascii.eqb c) (list_ascii_of_string "-_.!~*'()").

Definition hexDigit (n : nat) : ascii :=
  nth n (list_ascii_of_string "0123456789ABCDEF") "0"%char.

Fixpoint escapeBytes (s : string) : string :=
  match s with
  | EmptyString => EmptyString
  | String c rest =>
      if unreserved c then String c (escapeBytes rest)
      else
        let n := nat_of_ascii c in
        String "%" (String (hexDigit (n / 16)) (String (hexDigit (n mod 16))
          (escapeBytes rest)))
  end.

Fixpoint hasLoneSurrogate (s : string) : bool :=
  match s with
  | EmptyString => false
  | String c rest =>
      match rest with
      | String d _ =>
          (nat_of_ascii c =? 237)
          && (160 <=? nat_of_ascii d) && (nat_of_ascii d <=? 191)
      | EmptyString => false
      end
      || hasLoneSurrogate rest
  end.

(** [None]: the call throws a URIError. *)
Definition encodeURIComponent (s : string) : option string :=
  if hasLoneSurrogate s then None else Some (escapeBytes s).

Definition baseUrl : string := "https://sitn.ne.ch/geoshop2_api/product/".

(** The URL built at the top of the [try] block of [fetchProducts];
    [None] when [encodeURIComponent] throws.  The empty term is falsy and
    is not encoded. *)
Definition searchUrl (term : string) : option string :=
  match term with
  | EmptyString => Some baseUrl
  | String _ _ =>
      match encodeURIComponent term with
      | Some encoded => Some (baseUrl ++ "?search=" ++ encoded)%string
      | None => None
      end
  end.

(** ** The shadow DOM, as far as the class writes it *)

Record Anchor := { href : string; target : string; textContent : string }.

Inductive Node :=
| LoadingEl                                         (* div.loading *)
| SuggestionItem (even : bool) (onclick : string) (link : Anchor)
| SentinelEl (id : nat)                             (* div.sentinel *)
| NoResultsEl.                                      (* div.no-results *)

Record Dom := {
  inputValue : string;          (* the text in .search-input *)
  inputSuggested : bool;        (* .search-input carries class "suggested" *)
  listContainer : list Node     (* children of .suggestions-dropdown *)
}.

Definition isLoadingEl (n : Node) : bool :=
  match n with LoadingEl => true | _ => false end.

Definition isSentinel (id : nat) (n : Node) : bool :=
  match n with SentinelEl k => k =? id | _ => false end.

Definition anySentinel (n : Node) : bool :=
  match n with SentinelEl _ => true | _ => false end.

Fixpoint removeFirstLoading (l : list Node) : list Node :=
  match l with
  | [] => []
  | LoadingEl :: rest => rest
  | n :: rest => n :: removeFirstLoading rest
  end.

(** The body of [this.products.forEach((product, index) => ...)]. *)
Definition suggestionItem (index : nat) (product : Product) : Node :=
  SuggestionItem (Nat.odd index) (metadata product ++ "/html/")
    {| href := metadata product ++ "/html/";
       target := "_blank";
       textContent := label product |}.

Fixpoint suggestionItems (index : nat) (ps : list Product) : list Node :=
  match ps with
  | [] => []
  | p :: rest => suggestionItem index p :: suggestionItems (S index) rest
  end.

(** ** Browser objects *)

Record Timer := { tid : nat; due : nat; arg : string }.

(** The async method suspended on a fetch.  [fetchProducts] always passes
    the signal of the controller it has just created, [fetchMoreProducts]
    passes none. *)
Inductive Awaiter :=
| InFetchProducts (controller : nat)
| InFetchMoreProducts.

Record Request := { rid : nat; url : string; awaiter : Awaiter }.

Definition signal (r : Request) : option nat :=
  match awaiter r with
  | InFetchProducts c => Some c
  | InFetchMoreProducts => None
  end.

(** How a pending [fetch] ... [response.json()] chain ends. *)
Inductive Outcome :=
| Ok200 (data : ApiResponse)    (* response.ok and a parsed body *)
| NotOk                         (* !response.ok: an Error is thrown *)
| NetworkFail                   (* fetch rejects with a TypeError *)
| BadJson                       (* response.json() rejects with a SyntaxError *)
| AbortErr.                     (* rejection whose name is "AbortError" *)

(** ** The element and its environment *)

Record Widget := {
  shadow : option Dom;          (* None: render() has not run yet *)
  products : list Product;
  loading : bool;
  nextPage : option string;
  observer : option nat;
  abortController : option nat;
  debounceTimer : option nat
}.

Record Browser := {
  now : nat;                            (* milliseconds *)
  timers : list Timer;                  (* armed, neither fired nor cleared *)
  timersCreated : nat;
  aborted : list nat;                   (* controllers on which abort() ran *)
  controllersCreated : nat;
  inflight : list Request;              (* fetches not yet settled *)
  issued : list Request;                (* every fetch call, oldest first *)
  liveObservers : list (nat * nat);     (* observer, observed sentinel *)
  observersCreated : nat;
  sentinelsCreated : nat
}.

Record World := { self :> Widget; env :> Browser }.

(** ** Field assignment

    [set_f v w] is [w] after the assignment [this.f = v] (for the fields of
    the element) or after the browser has updated its own [f]. *)

Definition set_shadow (v : option Dom) (w : World) : World :=
  {| self :=
       {| shadow := v; products := products w; loading := loading w;
          nextPage := nextPage w; observer := observer w;
          abortController := abortController w;
          debounceTimer := debounceTimer w |};
     env := env w |}.

Definition set_products (v : list Product) (w : World) : World :=
  {| self :=
       {| shadow := shadow w; products := v; loading := loading w;
          nextPage := nextPage w; observer := observer w;
          abortController := abortController w;
          debounceTimer := debounceTimer w |};
     env := env w |}.

Definition set_loading (v : bool) (w : World) : World :=
  {| self :=
       {| shadow := shadow w; products := products w; loading := v;
          nextPage := nextPage w; observer := observer w;
          abortController := abortController w;
          debounceTimer := debounceTimer w |};
     env := env w |}.

Definition set_nextPage (v : option string) (w : World) : World :=
  {| self :=
       {| shadow := shadow w; products := products w; loading := loading w;
          nextPage := v; observer := observer w;
          abortController := abortController w;
          debounceTimer := debounceTimer w |};
     env := env w |}.

Definition set_observer (v : option nat) (w : World) : World :=
  {| self :=
       {| shadow := shadow w; products := products w; loading := loading w;
          nextPage := nextPage w; observer := v;
          abortController := abortController w;
          debounceTimer := debounceTimer w |};
     env := env w |}.

Definition set_abortController (v : option nat) (w : World) : World :=
  {| self :=
       {| shadow := shadow w; products := products w; loading := loading w;
          nextPage := nextPage w; observer := observer w;
          abortController := v; debounceTimer := debounceTimer w |};
     env := env w |}.

Definition set_debounceTimer (v : option nat) (w : World) : World :=
  {| self :=
       {| shadow := shadow w; products := products w; loading := loading w;
          nextPage := nextPage w; observer := observer w;
          abortController := abortController w; debounceTimer := v |};
     env := env w |}.

Definition set_now (v : nat) (w : World) : World :=
  {| self := self w;
     env :=
       {| now := v; timers := timers w; timersCreated := timersCreated w;
          aborted := aborted w; controllersCreated := controllersCreated w;
          inflight := inflight w; issued := issued w;
          liveObservers := liveObservers w;
          observersCreated := observersCreated w;
          sentinelsCreated := sentinelsCreated w |} |}.

Definition set_timers (v : list Timer) (w : World) : World :=
  {| self := self w;
     env :=
       {| now := now w; timers := v; timersCreated := timersCreated w;
          aborted := aborted w; controllersCreated := controllersCreated w;
          inflight := inflight w; issued := issued w;
          liveObservers := liveObservers w;
          observersCreated := observersCreated w;
          sentinelsCreated := sentinelsCreated w |} |}.

Definition set_timersCreated (v : nat) (w : World) : World :=
  {| self := self w;
     env :=
       {| now := now w; timers := timers w; timersCreated := v;
          aborted := aborted w; controllersCreated := controllersCreated w;
          inflight := inflight w; issued := issued w;
          liveObservers := liveObservers w;
          observersCreated := observersCreated w;
          sentinelsCreated := sentinelsCreated w |} |}.

Definition set_aborted (v : list nat) (w : World) : World :=
  {| self := self w;
     env :=
       {| now := now w; timers := timers w;
          timersCreated := timersCreated w; aborted := v;
          controllersCreated := controllersCreated w;
          inflight := inflight w; issued := issued w;
          liveObservers := liveObservers w;
          observersCreated := observersCreated w;
          sentinelsCreated := sentinelsCreated w |} |}.

Definition set_controllersCreated (v : nat) (w : World) : World :=
  {| self := self w;
     env :=
       {| now := now w; timers := timers w;
          timersCreated := timersCreated w; aborted := aborted w;
          controllersCreated := v; inflight := inflight w;
          issued := issued w; liveObservers := liveObservers w;
          observersCreated := observersCreated w;
          sentinelsCreated := sentinelsCreated w |} |}.

Definition set_inflight (v : list Request) (w : World) : World :=
  {| self := self w;
     env :=
       {| now := now w; timers := timers w;
          timersCreated := timersCreated w; aborted := aborted w;
          controllersCreated := controllersCreated w; inflight := v;
          issued := issued w; liveObservers := liveObservers w;
          observersCreated := observersCreated w;
          sentinelsCreated := sentinelsCreated w |} |}.

Definition set_issued (v : list Request) (w : World) : World :=
  {| self := self w;
     env :=
       {| now := now w; timers := timers w;
          timersCreated := timersCreated w; aborted := aborted w;
          controllersCreated := controllersCreated w;
          inflight := inflight w; issued := v;
          liveObservers := liveObservers w;
          observersCreated := observersCreated w;
          sentinelsCreated := sentinelsCreated w |} |}.

Definition set_liveObservers (v : list (nat * nat)) (w : World) : World :=
  {| self := self w;
     env :=
       {| now := now w; timers := timers w;
          timersCreated := timersCreated w; aborted := aborted w;
          controllersCreated := controllersCreated w;
          inflight := inflight w; issued := issued w; liveObservers := v;
          observersCreated := observersCreated w;
          sentinelsCreated := sentinelsCreated w |} |}.

Definition set_observersCreated (v : nat) (w : World) : World :=
  {| self := self w;
     env :=
       {| now := now w; timers := timers w;
          timersCreated := timersCreated w; aborted := aborted w;
          controllersCreated := controllersCreated w;
          inflight := inflight w; issued := issued w;
          liveObservers := liveObservers w; observersCreated := v;
          sentinelsCreated := sentinelsCreated w |} |}.

Definition set_sentinelsCreated (v : nat) (w : World) : World :=
  {| self := self w;
     env :=
       {| now := now w; timers := timers w;
          timersCreated := timersCreated w; aborted := aborted w;
          controllersCreated := controllersCreated w;
          inflight := inflight w; issued := issued w;
          liveObservers := liveObservers w;
          observersCreated := observersCreated w; sentinelsCreated := v |} |}.

(** The element right after its constructor, in a fresh page. *)
Definition init : World :=
  {| self := {| shadow := None; products := []; loading := false;
                nextPage := None; observer := None;
                abortController := None; debounceTimer := None |};
     env := {| now := 0; timers := []; timersCreated := 0; aborted := [];
               controllersCreated := 0; inflight := []; issued := [];
               liveObservers := []; observersCreated := 0;
               sentinelsCreated := 0 |} |}.

(** ** DOM helpers *)

Definition setList (l : list Node) (d : Dom) : Dom :=
  {| inputValue := inputValue d; inputSuggested := inputSuggested d;
     listContainer := l |}.

Definition addSuggested (d : Dom) : Dom :=
  {| inputValue := inputValue d; inputSuggested := true;
     listContainer := listContainer d |}.

(** [input.value = v], by the user or by the clear button. *)
Definition setValue (v : string) (d : Dom) : Dom :=
  {| inputValue := v; inputSuggested := inputSuggested d;
     listContainer := listContainer d |}.

Definition appendChild (n : Node) (d : Dom) : Dom :=
  setList (listContainer d ++ [n]) d.

(** Apply [f] to the rendered shadow tree; nothing to do on an empty root. *)
Definition withDom (f : Dom -> Dom) (w : World) : World :=
  match shadow w with
  | Some d => set_shadow (Some (f d)) w
  | None => w
  end.

(** ** Browser primitives *)

(** [controller.abort()]. *)
Definition abort (c : nat) (w : World) : World :=
  set_aborted (c :: aborted w) w.

(** [observer.disconnect()]. *)
Definition disconnect (o : nat) (w : World) : World :=
  set_liveObservers
    (filter (fun p => negb (fst p =? o)) (liveObservers w)) w.

(** [clearTimeout(id)]. *)
Definition clearTimeout (id : nat) (w : World) : World :=
  set_timers (filter (fun t => negb (tid t =? id)) (timers w)) w.

(** [window.setTimeout(cb, delay)], [cb] being the closure of
    [handleSearch] over [term]; timer ids are positive. *)
Definition setTimeout (term : string) (delay : nat) (w : World)
  : nat * World :=
  let id := S (timersCreated w) in
  (id, set_timers
         (timers w ++ [{| tid := id; due := now w + delay; arg := term |}])
         (set_timersCreated id w)).

(** [fetch(url, ...)]: the call is logged and stays pending. *)
Definition fetch (u : string) (a : Awaiter) (w : World) : World :=
  let r := {| rid := S (List.length (issued w)); url := u; awaiter := a |} in
  set_inflight (inflight w ++ [r]) (set_issued (issued w ++ [r]) w).

(** ** Methods of the class *)

Definition updateLoadingState (w : World) : World :=
  match shadow w with
  | None => w
  | Some d =>
      let loadingEl := existsb isLoadingEl (listContainer d) in
      if loading w then
        if loadingEl then w
        else set_shadow (Some (appendChild LoadingEl d)) w
      else
        if loadingEl
        then set_shadow
               (Some (setList (removeFirstLoading (listContainer d)) d)) w
        else w
  end.

Definition setupIntersectionObserver (sentinel : nat) (w : World) : World :=
  let w1 := match observer w with
            | Some o => disconnect o w
            | None => w
            end in
  let o := S (observersCreated w1) in
  set_liveObservers (liveObservers w1 ++ [(o, sentinel)])
    (set_observersCreated o (set_observer (Some o) w1)).

Definition updateList (w : World) : World :=
  match shadow w with
  | None => w
  | Some _ =>
      let w0 := withDom (setList []) w in
      let w1 :=
        match products w0 with
        | _ :: _ =>
            let w' :=
              withDom (setList (suggestionItems 0 (products w0)))
                (withDom addSuggested w0) in
            if truthy (nextPage w') then
              let s := S (sentinelsCreated w') in
              setupIntersectionObserver s
                (withDom (appendChild (SentinelEl s))
                   (set_sentinelsCreated s w'))
            else w'
        | [] =>
            if negb (loading w0)
            then withDom (appendChild NoResultsEl) (withDom addSuggested w0)
            else w0
        end in
      if loading w1 then withDom (appendChild LoadingEl) w1 else w1
  end.

(** [fetchProducts], up to its first [await].  When building the URL
    throws, inside the [try], the [catch] block runs at once: the error is
    not an AbortError, so [loading] is lowered and the list rendered, and
    no fetch is issued. *)
Definition fetchProducts (term : string) (w : World) : World :=
  let w1 := match abortController w with
            | Some c => abort c w
            | None => w
            end in
  let c := S (controllersCreated w1) in
  let w2 := set_abortController (Some c) (set_controllersCreated c w1) in
  let w3 := updateLoadingState (set_loading true w2) in
  match searchUrl term with
  | Some u => fetch u (InFetchProducts c) w3
  | None => updateList (set_loading false w3)
  end.

(** [fetchProducts], from the point where the awaited chain settles. *)
Definition fetchProducts_resume (o : Outcome) (w : World) : World :=
  match o with
  | Ok200 data =>
      updateList
        (set_loading false
           (set_nextPage (next data) (set_products (results data) w)))
  | AbortErr => w
  | NotOk | NetworkFail | BadJson => updateList (set_loading false w)
  end.

(** [fetchMoreProducts], up to its first [await]. *)
Definition fetchMoreProducts (w : World) : World :=
  if negb (truthy (nextPage w)) || loading w then w
  else
    let w1 := updateLoadingState (set_loading true w) in
    match nextPage w1 with
    | Some u => fetch u InFetchMoreProducts w1
    | None => w1
    end.

(** [fetchMoreProducts], from the point where the awaited chain settles. *)
Definition fetchMoreProducts_resume (o : Outcome) (w : World) : World :=
  match o with
  | Ok200 data =>
      updateList
        (set_loading false
           (set_nextPage (next data)
              (set_products (products w ++ results data) w)))
  | NotOk | NetworkFail | BadJson | AbortErr =>
      updateList (set_loading false w)
  end.

(** The closure handed to [setTimeout] by [handleSearch]. *)
Definition search (term : string) (w : World) : World :=
  fetchProducts term (set_nextPage None (set_products [] w)).

Definition handleSearch (term : string) (w : World) : World :=
  let w1 := match debounceTimer w with
            | Some (S _ as id) => clearTimeout id w
            | _ => w
            end in
  let '(id, w2) := setTimeout term 300 w1 in
  set_debounceTimer (Some id) w2.

(** [render()]: the shadow root is rebuilt from the template. *)
Definition render (w : World) : World :=
  set_shadow
    (Some {| inputValue := EmptyString; inputSuggested := false;
             listContainer := [LoadingEl] |}) w.

Definition connectedCallback (w : World) : World :=
  fetchProducts EmptyString (render w).

Definition disconnectedCallback (w : World) : World :=
  match observer w with
  | Some o => disconnect o w
  | None => w
  end.

(** The callback given to [new IntersectionObserver]. *)
Definition onIntersection (isIntersecting : bool) (w : World) : World :=
  if isIntersecting && truthy (nextPage w) && negb (loading w)
  then fetchMoreProducts w
  else w.

(** ** The event loop

    One event is one task of the browser's event loop: a lifecycle
    callback, a listener installed by [setupEventListeners] (they exist
    once [render] has built the input and the button), a timer, the
    settling of a fetch, or a notification of the intersection observer.
    A timer cannot fire before its delay has elapsed.  [InputEv value] is
    the user editing the input so that it holds [value]: the browser has
    written the value when the listener reads it. *)

Inductive Event :=
| Connected
| Disconnected
| InputEv (value : string)      (* "input" on .search-input *)
| ClearClick                    (* "click" on .clear-button *)
| Elapse (ms : nat)
| TimerFires (id : nat)
| Response (rid : nat) (o : Outcome)
| Intersection (observer : nat) (isIntersecting : bool).

Definition findTimer (id : nat) (w : World) : option Timer :=
  find (fun t => tid t =? id) (timers w).

Definition findRequest (id : nat) (w : World) : option Request :=
  find (fun r => rid r =? id) (inflight w).

Definition findObserver (o : nat) (w : World) : option (nat * nat) :=
  find (fun p => fst p =? o) (liveObservers w).

Definition dropRequest (id : nat) (w : World) : World :=
  set_inflight (filter (fun r => negb (rid r =? id)) (inflight w)) w.

(** What the awaiting method observes: a fetch whose signal has been
    aborted rejects with an AbortError whatever the network did. *)
Definition settle (r : Request) (o : Outcome) (w : World) : Outcome :=
  match signal r with
  | Some c => if existsb (Nat.eqb c) (aborted w) then AbortErr else o
  | None => o
  end.

(** A sentinel can only intersect while it is a child of the list. *)
Definition attached (sentinel : nat) (w : World) : bool :=
  match shadow w with
  | Some d => existsb (isSentinel sentinel) (listContainer d)
  | None => false
  end.

Definition step (w : World) (e : Event) : World :=
  match e with
  | Connected => connectedCallback w
  | Disconnected => disconnectedCallback w
  | InputEv value =>
      match shadow w with
      | Some _ => handleSearch value (withDom (setValue value) w)
      | None => w
      end
  | ClearClick =>
      match shadow w with
      | Some _ =>
          handleSearch EmptyString (withDom (setValue EmptyString) w)
      | None => w
      end
  | Elapse ms => set_now (now w + ms) w
  | TimerFires id =>
      match findTimer id w with
      | Some t =>
          if due t <=? now w then search (arg t) (clearTimeout id w) else w
      | None => w
      end
  | Response id o =>
      match findRequest id w with
      | Some r =>
          let w1 := dropRequest id w in
          match awaiter r with
          | InFetchProducts _ => fetchProducts_resume (settle r o w1) w1
          | InFetchMoreProducts =>
              fetchMoreProducts_resume (settle r o w1) w1
          end
      | None => w
      end
  | Intersection o isIntersecting =>
      match findObserver o w with
      | Some (_, sentinel) =>
          onIntersection (isIntersecting && attached sentinel w) w
      | None => w
      end
  end.

Definition run (w : World) (evs : list Event) : World :=
  fold_left step evs w.

Definition reachable (w : World) : Prop :=
  exists evs, w = run init evs.

(** What a user can see: the three state fields and the rendered tree. *)
Definition visible (w : World)
  : list Product * option string * bool * option Dom :=
  (products w, nextPage w, loading w, shadow w).

(** * Vocabulary of the statements *)

(** The children [updateList] leaves in the list container. *)
Definition renderedList (w : World) : list Node :=
  match products w with
  | _ :: _ =>
      suggestionItems 0 (products w)
      ++ (if truthy (nextPage w)
          then [SentinelEl (S (sentinelsCreated w))] else [])
  | [] => if loading w then [] else [NoResultsEl]
  end
  ++ (if loading w then [LoadingEl] else []).

(** Result entries, as opposed to the sentinel and the two indicators. *)
Definition isItem (n : Node) : bool :=
  match n with SuggestionItem _ _ _ => true | _ => false end.

(** Every way a fetch can end except a parsed page. *)
Definition isFailure (o : Outcome) : Prop :=
  match o with Ok200 _ => False | _ => True end.

(** The request the next call of [fetch] creates. *)
Definition newRequest (w : World) (u : string) (a : Awaiter) : Request :=
  {| rid := S (List.length (issued w)); url := u; awaiter := a |}.

(** [w'] has the controllers and the requests of [w]. *)
Record sameNet (w w' : World) : Prop := {
  same_abortController : abortController w' = abortController w;
  same_aborted : aborted w' = aborted w;
  same_controllersCreated : controllersCreated w' = controllersCreated w;
  same_inflight : inflight w' = inflight w;
  same_issued : issued w' = issued w
}.

(** The request a run of [fetchProducts] issues: none when building the
    URL throws. *)
Definition searchRequest (w : World) (term : string) : list Request :=
  match searchUrl term with
  | Some u =>
      [newRequest w u (InFetchProducts (S (controllersCreated w)))]
  | None => []
  end.

(** The bookkeeping of one run of [fetchProducts] up to its [await]. *)
Record startsSearch (term : string) (w w' : World) : Prop := {
  starts_abortController :
    abortController w' = Some (S (controllersCreated w));
  starts_aborted :
    aborted w' = match abortController w with
                 | Some old => old :: aborted w
                 | None => aborted w
                 end;
  starts_controllersCreated :
    controllersCreated w' = S (controllersCreated w);
  starts_inflight : inflight w' = inflight w ++ searchRequest w term;
  starts_issued : issued w' = issued w ++ searchRequest w term
}.

(** The four things one event can do to controllers and requests: nothing,
    settle a pending fetch, issue a continuation, start a fresh search. *)
Inductive NetEffect (w w' : World) : Prop :=
| NetSame : sameNet w w' -> NetEffect w w'
| NetSettled (id : nat) :
    abortController w' = abortController w ->
    aborted w' = aborted w ->
    controllersCreated w' = controllersCreated w ->
    inflight w' = filter (fun r => negb (rid r =? id)) (inflight w) ->
    issued w' = issued w ->
    NetEffect w w'
| NetContinuation (u : string) :
    abortController w' = abortController w ->
    aborted w' = aborted w ->
    controllersCreated w' = controllersCreated w ->
    inflight w' = inflight w ++ [newRequest w u InFetchMoreProducts] ->
    issued w' = issued w ++ [newRequest w u InFetchMoreProducts] ->
    NetEffect w w'
| NetFreshSearch (term : string) :
    startsSearch term w w' -> NetEffect w w'.

(** Request identifiers are unique and were all issued; abort marks and
    the current controller refer to controllers that exist; the current
    controller is not aborted; and every pending fresh search other than
    the one of the current controller has been aborted. *)
Record netInv (w : World) : Prop := {
  rids_issued :
    forall r, In r (inflight w) -> rid r <= List.length (issued w);
  rids_nodup : NoDup (map rid (inflight w));
  aborted_created :
    forall c, In c (aborted w) -> c <= controllersCreated w;
  current_not_aborted :
    forall c, abortController w = Some c ->
              c <= controllersCreated w /\ ~ In c (aborted w);
  superseded_aborted :
    forall r c, In r (inflight w) -> awaiter r = InFetchProducts c ->
                c <= controllersCreated w
                /\ (abortController w = Some c \/ In c (aborted w))
}.

(** A fetch whose controller has been aborted stays harmless: the abort
    mark is never removed and no later request reuses its identifier. *)
Record doomed (r : Request) (c : nat) (w : World) : Prop := {
  doomed_aborted : In c (aborted w);
  doomed_rid : rid r <= List.length (issued w);
  doomed_unique :
    forall r', In r' (inflight w) -> rid r' = rid r -> r' = r
}.

(** [isSome (shadow w)]: [render] has built the tree. *)
Definition isSome {A} (o : option A) : bool :=
  match o with Some _ => true | None => false end.

(** Before the first [connectedCallback] nothing is armed, pending or
    observed; afterwards the tree built by [render] is never removed. *)
Record domInv (w : World) : Prop := {
  idle_unmounted :
    isSome (shadow w) = false ->
    inflight w = [] /\ timers w = [] /\ liveObservers w = []
}.

(** The test [error.name === "AbortError"] of [fetchProducts]. *)
Definition isCancellation (o : Outcome) : bool :=
  match o with AbortErr => true | _ => false end.

(** The class keeps no generation counter; [fetchProducts] creates one
    AbortController per fresh search, so the number of controllers created
    so far is the generation of the current search. *)
Definition generation (w : World) : nat := controllersCreated w.

(** Every live observer is the one held in [this.observer], and there is
    at most one. *)
Record obsInv (w : World) : Prop := {
  live_is_current :
    forall p, In p (liveObservers w) -> observer w = Some (fst p);
  live_at_most_one : List.length (liveObservers w) <= 1
}.

(** [l.length > 0]. *)
Definition nonEmpty {A} (l : list A) : bool :=
  match l with [] => false | _ :: _ => true end.

(** The condition under which [updateList] appends a sentinel. *)
Definition attaches (w : World) : bool :=
  nonEmpty (products w) && truthy (nextPage w).

(** Whether the method awaiting [r] goes on to call [updateList] when the
    fetch settles with [o]. *)
Definition rendersOn (r : Request) (o : Outcome) (w : World) : bool :=
  match awaiter r with
  | InFetchProducts _ => negb (isCancellation (settle r o w))
  | InFetchMoreProducts => true
  end.

(** Every run of a handler that renders is [updateList] on a world with
    the same tree and the same observer. *)
Record sameObserver (w w2 : World) : Prop := {
  so_shadow : shadow w2 = shadow w;
  so_observer : observer w2 = observer w;
  so_live : liveObservers w2 = liveObservers w;
  so_observers : observersCreated w2 = observersCreated w;
  so_sentinels : sentinelsCreated w2 = sentinelsCreated w
}.

(** Every armed timer is the one held in [this.debounceTimer]. *)
Definition timersInv (w : World) : Prop :=
  forall t, In t (timers w) -> debounceTimer w = Some (tid t) /\ tid t <> 0.

(** Requests issued by [fetchProducts]. *)
Definition isFresh (r : Request) : bool :=
  match awaiter r with InFetchProducts _ => true | _ => false end.

(** The URLs of the fresh searches issued so far, oldest first. *)
Definition freshUrls (w : World) : list string :=
  map url (filter isFresh (issued w)).

(** The URL fetched by a search for [term]: none when building it
    throws. *)
Definition urlsOf (term : string) : list string :=
  match searchUrl term with
  | Some u => [u]
  | None => []
  end.

(** The same, spelled out: the catalogue URL alone for the empty term,
    the URL with the encoded term as its [search] parameter for a term
    that can be encoded, nothing for a term that holds a lone surrogate. *)
Definition fetchedFor (term : string) : list string :=
  match term with
  | EmptyString => ["https://sitn.ne.ch/geoshop2_api/product/"%string]
  | String _ _ =>
      if hasLoneSurrogate term then []
      else [("https://sitn.ne.ch/geoshop2_api/product/?search="
             ++ escapeBytes term)%string]
  end.

(** Events that are neither a search typed by the user nor an attach. *)
Definition quiet (e : Event) : bool :=
  match e with
  | Connected | InputEv _ | ClearClick => false
  | _ => true
  end.

(** Time taken by an event, and by a list of events. *)
Definition elapse (e : Event) : nat :=
  match e with Elapse ms => ms | _ => 0 end.

Definition elapsed (evs : list Event) : nat :=
  fold_right (fun e n => elapse e + n) 0 evs.

(** A burst: before each further call of [handleSearch], the events that
    happen since the previous call. *)
Fixpoint burst (w : World) (b : list (list Event * string)) : World :=
  match b with
  | [] => w
  | (evs, term) :: rest => burst (handleSearch term (run w evs)) rest
  end.

(** The call comes less than 300 ms after the previous one, and nothing
    but quiet events happened in between. *)
Definition rapid (seg : list Event * string) : Prop :=
  Forall (fun e => quiet e = true) (fst seg) /\ elapsed (fst seg) < 300.

(** Number of loading indicators among the children of the list. *)
Definition countLoading (l : list Node) : nat :=
  List.length (filter isLoadingEl l).

(** The tree [updateList] builds when no load is running. *)
Definition idleTree (w : World) : Dom :=
  {| inputValue :=
       match shadow w with
       | Some d => inputValue d
       | None => EmptyString
       end;
     inputSuggested := true;
     listContainer :=
       match products w with
       | [] => [NoResultsEl]
       | _ :: _ =>
           suggestionItems 0 (products w)
           ++ (if truthy (nextPage w)
               then [SentinelEl (S (sentinelsCreated w))] else [])
       end |}.

(** [updateLoadingState] on the children of the list, while loading. *)
Definition withIndicator (l : list Node) : list Node :=
  if existsb isLoadingEl l then l else l ++ [LoadingEl].

(** The controller aborted, if any, when a fresh search starts. *)
Definition abortedBy (w : World) : list nat :=
  match abortController w with
  | Some old => old :: aborted w
  | None => aborted w
  end.

(** Successive pages handed to the success path of [fetchMoreProducts]. *)
Definition appendPages (w : World) (pages : list ApiResponse) : World :=
  fold_left (fun w' p => fetchMoreProducts_resume (Ok200 p) w') pages w.

(** The indicator is in the list exactly when [loading], and only once. *)
Definition indicatorInv (w : World) : Prop :=
  forall d, shadow w = Some d ->
            countLoading (listContainer d) = if loading w then 1 else 0.

(** No two pending fresh searches were started with the same
    controller. *)
Definition oneRequestPerController (w : World) : Prop :=
  forall r1 r2 c,
    In r1 (inflight w) -> In r2 (inflight w) ->
    awaiter r1 = InFetchProducts c -> awaiter r2 = InFetchProducts c ->
    r1 = r2.

(** * Sample data and executions *)

(** Three catalogue entries and a page of them. *)
Definition valve : Product :=
  {| label := "Vannes"; metadata := "https://sitn.ne.ch/md/valve" |}.

Definition pump : Product :=
  {| label := "Pompes"; metadata := "https://sitn.ne.ch/md/pump" |}.

Definition page (ps : list Product) (nxt : option string) : ApiResponse :=
  {| count := List.length ps; next := nxt; previous := None; results := ps |}.

(** The URLs fetched for the terms "valve", "pump" and "hose". *)
Definition valveUrl : string :=
  "https://sitn.ne.ch/geoshop2_api/product/?search=valve".

Definition pumpUrl : string :=
  "https://sitn.ne.ch/geoshop2_api/product/?search=pump".

Definition hoseUrl : string :=
  "https://sitn.ne.ch/geoshop2_api/product/?search=hose".

(** The first page has arrived and announces a second one. *)
Definition listed : World :=
  run init [Connected; Response 1 (Ok200 (page [valve] (Some "page2url")))].

(** Attached, one product listed, detached, attached again. *)
Definition reattached : World :=
  run init [Connected; Response 1 (Ok200 (page [valve] None));
            Disconnected; Connected].

Definition hose : Product :=
  {| label := "Tuyaux"; metadata := "https://sitn.ne.ch/md/hose" |}.

(** A list with a second page, whose sentinel has just become visible. *)
Definition scrolling : World :=
  run init [Connected;
            Response 1 (Ok200 (page [valve] (Some "page2url")));
            Intersection 1 true].

(** Just attached: the initial fetch is pending. *)
Definition attachedOnce : World := run init [Connected].

(** "valve" was typed 300 ms ago while the initial fetch is pending. *)
Definition typed : World :=
  run init [Connected; InputEv "valve"; Elapse 300].

(** After a first keystroke, two more within 300 ms of each other. *)
Definition typing : list (list Event * string) :=
  [([Elapse 100], "va"); ([Elapse 120; Intersection 1 false], "valve")].

(** The user types "hose" while the continuation for page 2 is pending;
    the debounce timer has fired. *)
Definition newSearchWhileScrolling : World :=
  run scrolling [InputEv "hose"; Elapse 300; TimerFires 1].

(** A search for "pump" is pending and a timer for "hose" is armed when
    the element is detached. *)
Definition detached : World :=
  run init [Connected;
            Response 1 (Ok200 (page [valve] (Some "page2url")));
            InputEv "pump"; Elapse 300; TimerFires 1;
            InputEv "hose";
            Disconnected].

(** The continuation returns the last page. *)
Definition lastPage : World :=
  step scrolling (Response 2 (Ok200 (page [pump] None))).

(** The catalogue answers with no results and a cursor. *)
Definition emptyPageWithCursor : World :=
  step attachedOnce (Response 1 (Ok200 (page [] (Some "page2url")))).

(** "hose" was typed 300 ms ago over the first page of results. *)
Definition typedOverList : World :=
  run listed [InputEv "hose"; Elapse 300].

(** A term that is one lone surrogate, U+D800: the bytes ED A0 80. *)
Definition loneSurrogate : string :=
  String (ascii_of_nat 237)
    (String (ascii_of_nat 160) (String (ascii_of_nat 128) EmptyString)).

(** After a first keystroke, two more within 300 ms of each other, the
    last of which leaves a lone surrogate in the input. *)
Definition typingSurrogate : list (list Event * string) :=
  [([Elapse 100], "va"); ([Elapse 120], loneSurrogate)].

(** * Properties *)

(** ** Field-by-field behaviour of the methods *)

Ltac open_world w :=
  let s := fresh "s" in let b := fresh "b" in
  destruct w as [s b]; destruct s, b; cbn in *.

Ltac case_split :=
  repeat (cbn in *;
          match goal with
          | |- context [match ?x with _ => _ end] => destruct x eqn:?
          end);
  cbn in *.

Lemma updateList_shadow (w : World) d :
  shadow w = Some d ->
  exists d', shadow (updateList w) = Some d'
             /\ listContainer d' = renderedList w.
Proof.
  intro H. open_world w. subst.
  unfold updateList, renderedList, setupIntersectionObserver.
  case_split; try congruence; eexists; split; try reflexivity; cbn;
    rewrite <- ?app_assoc; cbn; rewrite ?app_nil_r; reflexivity.
Qed.

Create Rewrite HintDb frame.

Ltac frame :=
  unfold updateList, updateLoadingState, setupIntersectionObserver,
    disconnect, withDom;
  case_split; congruence.

Lemma updateLoadingState_products (w : World) :
  products (updateLoadingState w) = products w.
Proof. frame. Qed.

Lemma updateLoadingState_loading (w : World) :
  loading (updateLoadingState w) = loading w.
Proof. frame. Qed.

Lemma updateLoadingState_nextPage (w : World) :
  nextPage (updateLoadingState w) = nextPage w.
Proof. frame. Qed.

Lemma updateLoadingState_observer (w : World) :
  observer (updateLoadingState w) = observer w.
Proof. frame. Qed.

Lemma updateLoadingState_abortController (w : World) :
  abortController (updateLoadingState w) = abortController w.
Proof. frame. Qed.

Lemma updateLoadingState_debounceTimer (w : World) :
  debounceTimer (updateLoadingState w) = debounceTimer w.
Proof. frame. Qed.

Lemma updateLoadingState_now (w : World) :
  now (updateLoadingState w) = now w.
Proof. frame. Qed.

Lemma updateLoadingState_timers (w : World) :
  timers (updateLoadingState w) = timers w.
Proof. frame. Qed.

Lemma updateLoadingState_timersCreated (w : World) :
  timersCreated (updateLoadingState w) = timersCreated w.
Proof. frame. Qed.

Lemma updateLoadingState_aborted (w : World) :
  aborted (updateLoadingState w) = aborted w.
Proof. frame. Qed.

Lemma updateLoadingState_controllersCreated (w : World) :
  controllersCreated (updateLoadingState w) = controllersCreated w.
Proof. frame. Qed.

Lemma updateLoadingState_inflight (w : World) :
  inflight (updateLoadingState w) = inflight w.
Proof. frame. Qed.

Lemma updateLoadingState_issued (w : World) :
  issued (updateLoadingState w) = issued w.
Proof. frame. Qed.

Lemma updateLoadingState_liveObservers (w : World) :
  liveObservers (updateLoadingState w) = liveObservers w.
Proof. frame. Qed.

Lemma updateLoadingState_observersCreated (w : World) :
  observersCreated (updateLoadingState w) = observersCreated w.
Proof. frame. Qed.

Lemma updateLoadingState_sentinelsCreated (w : World) :
  sentinelsCreated (updateLoadingState w) = sentinelsCreated w.
Proof. frame. Qed.

Lemma updateList_products (w : World) :
  products (updateList w) = products w.
Proof. frame. Qed.

Lemma updateList_loading (w : World) :
  loading (updateList w) = loading w.
Proof. frame. Qed.

Lemma updateList_nextPage (w : World) :
  nextPage (updateList w) = nextPage w.
Proof. frame. Qed.

Lemma updateList_abortController (w : World) :
  abortController (updateList w) = abortController w.
Proof. frame. Qed.

Lemma updateList_debounceTimer (w : World) :
  debounceTimer (updateList w) = debounceTimer w.
Proof. frame. Qed.

Lemma updateList_now (w : World) :
  now (updateList w) = now w.
Proof. frame. Qed.

Lemma updateList_timers (w : World) :
  timers (updateList w) = timers w.
Proof. frame. Qed.

Lemma updateList_timersCreated (w : World) :
  timersCreated (updateList w) = timersCreated w.
Proof. frame. Qed.

Lemma updateList_aborted (w : World) :
  aborted (updateList w) = aborted w.
Proof. frame. Qed.

Lemma updateList_controllersCreated (w : World) :
  controllersCreated (updateList w) = controllersCreated w.
Proof. frame. Qed.

Lemma updateList_inflight (w : World) :
  inflight (updateList w) = inflight w.
Proof. frame. Qed.

Lemma updateList_issued (w : World) :
  issued (updateList w) = issued w.
Proof. frame. Qed.

#[local] Hint Rewrite
  updateLoadingState_products updateLoadingState_loading
  updateLoadingState_nextPage updateLoadingState_observer
  updateLoadingState_abortController updateLoadingState_debounceTimer
  updateLoadingState_now updateLoadingState_timers
  updateLoadingState_timersCreated updateLoadingState_aborted
  updateLoadingState_controllersCreated updateLoadingState_inflight
  updateLoadingState_issued updateLoadingState_liveObservers
  updateLoadingState_observersCreated updateLoadingState_sentinelsCreated
  updateList_products updateList_loading
  updateList_nextPage updateList_abortController
  updateList_debounceTimer updateList_now
  updateList_timers updateList_timersCreated
  updateList_aborted updateList_controllersCreated
  updateList_inflight updateList_issued
  : frame.

(** [withDom] writes the tree and nothing else. *)
Lemma withDom_products (f : Dom -> Dom) (w : World) :
  products (withDom f w) = products w.
Proof. unfold withDom. destruct (shadow w); reflexivity. Qed.

Lemma withDom_loading (f : Dom -> Dom) (w : World) :
  loading (withDom f w) = loading w.
Proof. unfold withDom. destruct (shadow w); reflexivity. Qed.

Lemma withDom_nextPage (f : Dom -> Dom) (w : World) :
  nextPage (withDom f w) = nextPage w.
Proof. unfold withDom. destruct (shadow w); reflexivity. Qed.

Lemma withDom_observer (f : Dom -> Dom) (w : World) :
  observer (withDom f w) = observer w.
Proof. unfold withDom. destruct (shadow w); reflexivity. Qed.

Lemma withDom_abortController (f : Dom -> Dom) (w : World) :
  abortController (withDom f w) = abortController w.
Proof. unfold withDom. destruct (shadow w); reflexivity. Qed.

Lemma withDom_debounceTimer (f : Dom -> Dom) (w : World) :
  debounceTimer (withDom f w) = debounceTimer w.
Proof. unfold withDom. destruct (shadow w); reflexivity. Qed.

Lemma withDom_now (f : Dom -> Dom) (w : World) :
  now (withDom f w) = now w.
Proof. unfold withDom. destruct (shadow w); reflexivity. Qed.

Lemma withDom_timers (f : Dom -> Dom) (w : World) :
  timers (withDom f w) = timers w.
Proof. unfold withDom. destruct (shadow w); reflexivity. Qed.

Lemma withDom_timersCreated (f : Dom -> Dom) (w : World) :
  timersCreated (withDom f w) = timersCreated w.
Proof. unfold withDom. destruct (shadow w); reflexivity. Qed.

Lemma withDom_aborted (f : Dom -> Dom) (w : World) :
  aborted (withDom f w) = aborted w.
Proof. unfold withDom. destruct (shadow w); reflexivity. Qed.

Lemma withDom_controllersCreated (f : Dom -> Dom) (w : World) :
  controllersCreated (withDom f w) = controllersCreated w.
Proof. unfold withDom. destruct (shadow w); reflexivity. Qed.

Lemma withDom_inflight (f : Dom -> Dom) (w : World) :
  inflight (withDom f w) = inflight w.
Proof. unfold withDom. destruct (shadow w); reflexivity. Qed.

Lemma withDom_issued (f : Dom -> Dom) (w : World) :
  issued (withDom f w) = issued w.
Proof. unfold withDom. destruct (shadow w); reflexivity. Qed.

Lemma withDom_liveObservers (f : Dom -> Dom) (w : World) :
  liveObservers (withDom f w) = liveObservers w.
Proof. unfold withDom. destruct (shadow w); reflexivity. Qed.

Lemma withDom_observersCreated (f : Dom -> Dom) (w : World) :
  observersCreated (withDom f w) = observersCreated w.
Proof. unfold withDom. destruct (shadow w); reflexivity. Qed.

Lemma withDom_sentinelsCreated (f : Dom -> Dom) (w : World) :
  sentinelsCreated (withDom f w) = sentinelsCreated w.
Proof. unfold withDom. destruct (shadow w); reflexivity. Qed.

#[local] Hint Rewrite
  withDom_products withDom_loading withDom_nextPage
  withDom_observer withDom_abortController withDom_debounceTimer
  withDom_now withDom_timers withDom_timersCreated
  withDom_aborted withDom_controllersCreated withDom_inflight
  withDom_issued withDom_liveObservers withDom_observersCreated
  withDom_sentinelsCreated
  : frame.

(** ** Result links *)

Lemma suggestionItems_nth ps : forall k i p,
  nth_error ps i = Some p ->
  nth_error (suggestionItems k ps) i = Some (suggestionItem (k + i) p).
Proof.
  induction ps as [|q ps IH]; intros k [|i] p H; cbn in *; try discriminate.
  - injection H as ->. now rewrite Nat.add_0_r.
  - rewrite (IH (S k) i p H). now rewrite Nat.add_succ_r.
Qed.

Lemma suggestionItems_In ps : forall k n,
  In n (suggestionItems k ps) ->
  exists i p, nth_error ps i = Some p /\ n = suggestionItem (k + i) p.
Proof.
  induction ps as [|q ps IH]; intros k n H; cbn in *; [tauto|].
  destruct H as [<-|H].
  - exists 0, q. now rewrite Nat.add_0_r.
  - destruct (IH _ _ H) as (i & p & Hi & ->).
    exists (S i), p. now rewrite Nat.add_succ_r.
Qed.

Lemma renderedList_items (w : World) n :
  In n (renderedList w) -> isItem n = true ->
  In n (suggestionItems 0 (products w)).
Proof.
  unfold renderedList. intros H Hn.
  destruct (products w) eqn:Hp.
  - destruct (loading w); cbn in H; intuition (subst; discriminate).
  - rewrite <- Hp in *. rewrite !in_app_iff in H.
    destruct H as [[H|H]|H]; [exact H| |].
    + destruct (truthy (nextPage w)); cbn in H;
        intuition (subst; discriminate).
    + destruct (loading w); cbn in H; intuition (subst; discriminate).
Qed.

(** C10. After [updateList] has rendered the list, the i-th child of the
    list container is the entry of the i-th product, and both its click
    handler and the [href] of its anchor open the product's [metadata]
    followed by "/html/" (never the bare metadata URL); conversely every
    suggestion entry in the container is the entry of some product. *)
Theorem item_link_is_metadata_html (w : World) (d : Dom) :
  shadow w = Some d ->
  exists d',
    shadow (updateList w) = Some d'
    /\ (forall i p,
          nth_error (products w) i = Some p ->
          nth_error (listContainer d') i
          = Some (SuggestionItem (Nat.odd i) (metadata p ++ "/html/")
                    {| href := metadata p ++ "/html/";
                       target := "_blank";
                       textContent := label p |}))
    /\ (forall ev click a,
          In (SuggestionItem ev click a) (listContainer d') ->
          exists p, In p (products w)
                    /\ click = (metadata p ++ "/html/")%string
                    /\ href a = (metadata p ++ "/html/")%string).
Proof.
  intro H. destruct (updateList_shadow w d H) as (d' & Hs & Hl).
  exists d'. split; [exact Hs|]. rewrite Hl. split.
  - intros i p Hi. unfold renderedList.
    destruct (products w) eqn:Hp; [destruct i; discriminate|].
    rewrite <- Hp in *. rewrite <- app_assoc.
    rewrite nth_error_app1.
    + apply (suggestionItems_nth (products w) 0 i p Hi).
    + apply nth_error_Some. rewrite (suggestionItems_nth _ 0 i p Hi).
      discriminate.
  - intros ev click a Hin.
    apply renderedList_items in Hin; [|reflexivity].
    apply suggestionItems_In in Hin. destruct Hin as (i & p & Hi & E).
    exists p. split; [eapply nth_error_In; eauto|].
    unfold suggestionItem in E. injection E as -> -> ->. now cbn.
Qed.

Lemma item_link_is_metadata_html_witness :
  exists d',
    shadow (updateList (set_products [valve; pump] (render init))) = Some d'
    /\ nth_error (listContainer d') 1
       = Some (SuggestionItem true "https://sitn.ne.ch/md/pump/html/"
                 {| href := "https://sitn.ne.ch/md/pump/html/";
                    target := "_blank"; textContent := "Pompes" |}).
Proof.
  destruct (item_link_is_metadata_html
              (set_products [valve; pump] (render init))
              {| inputSuggested := false; listContainer := [LoadingEl] |}
              eq_refl) as (d' & Hs & Hn & _).
  exists d'. split; [exact Hs|]. exact (Hn 1 pump eq_refl).
Defined.

(** ** Continuation requests *)

Lemma settle_continuation r o (w : World) :
  awaiter r = InFetchMoreProducts -> settle r o w = o.
Proof. unfold settle, signal. now intros ->. Qed.

Lemma fetchMoreProducts_resume_ok (w : World) data :
  let w' := fetchMoreProducts_resume (Ok200 data) w in
  products w' = products w ++ results data
  /\ nextPage w' = next data
  /\ loading w' = false.
Proof. cbn. now autorewrite with frame. Qed.

Lemma fetchMoreProducts_resume_failure (w : World) o :
  isFailure o ->
  let w' := fetchMoreProducts_resume o w in
  products w' = products w /\ nextPage w' = nextPage w /\ loading w' = false.
Proof. destruct o; cbn; [tauto| | | |]; now autorewrite with frame. Qed.

(** C7. When the response to a pending continuation request arrives with a
    parsed page, [items] becomes the items held at that moment followed by
    the page's results, in order, the cursor becomes the page's [next], and
    [loading] is false. *)
Theorem continuation_success_appends (w : World) id r data :
  findRequest id w = Some r ->
  awaiter r = InFetchMoreProducts ->
  let w' := step w (Response id (Ok200 data)) in
  products w' = products w ++ results data
  /\ nextPage w' = next data
  /\ loading w' = false.
Proof.
  intros Hf Ha. cbn. rewrite Hf, Ha, settle_continuation by exact Ha.
  apply (fetchMoreProducts_resume_ok (dropRequest id w)).
Qed.

(** C6. When a pending continuation request ends in any error, [items] and
    the cursor are what they were when the error arrived, and [loading] is
    false; starting the attempt had not changed them either, so an attempt
    that fails right away leaves both as they were before it. *)
Theorem continuation_failure_keeps_items (w : World) id r o :
  findRequest id w = Some r ->
  awaiter r = InFetchMoreProducts ->
  isFailure o ->
  let w' := step w (Response id o) in
  (products w' = products w /\ nextPage w' = nextPage w /\ loading w' = false)
  /\ (forall w0 : World,
        let w1 := fetchMoreProducts_resume o (fetchMoreProducts w0) in
        products w1 = products w0 /\ nextPage w1 = nextPage w0
        /\ loading w1 = false).
Proof.
  intros Hf Ha Ho. cbn. split.
  - rewrite Hf, Ha, settle_continuation by exact Ha.
    apply (fetchMoreProducts_resume_failure (dropRequest id w) o Ho).
  - intro w0.
    destruct (fetchMoreProducts_resume_failure (fetchMoreProducts w0) o Ho)
      as (Hp & Hn & Hl).
    rewrite Hp, Hn, Hl. unfold fetchMoreProducts.
    destruct (negb (truthy (nextPage w0)) || loading w0); [auto|].
    autorewrite with frame. cbn.
    destruct (nextPage w0) eqn:E; cbn; autorewrite with frame; cbn;
      rewrite ?E; auto.
Qed.

Lemma fetchMoreProducts_guard (w : World) :
  truthy (nextPage w) = false \/ loading w = true ->
  fetchMoreProducts w = w.
Proof.
  unfold fetchMoreProducts. intros [-> | ->]; cbn; [reflexivity|].
  now rewrite orb_true_r.
Qed.

Lemma fetchMoreProducts_loading (w : World) :
  truthy (nextPage w) = true ->
  loading (fetchMoreProducts w) = true.
Proof.
  unfold fetchMoreProducts. intros T. rewrite T. cbn.
  destruct (loading w) eqn:L; [exact L|].
  autorewrite with frame. cbn.
  destruct (nextPage w); cbn; autorewrite with frame; reflexivity.
Qed.

(** C8. [fetchMoreProducts] returns at once, with no fetch and no write,
    when there is no cursor or a load is running; a second call made while
    the first one is still pending therefore issues nothing: the world
    after two calls in a row is the world after one. *)
Theorem loadMore_noop_when_busy_or_done (w : World) :
  (nextPage w = None \/ loading w = true ->
   fetchMoreProducts w = w
   /\ issued (fetchMoreProducts w) = issued w
   /\ inflight (fetchMoreProducts w) = inflight w)
  /\ fetchMoreProducts (fetchMoreProducts w) = fetchMoreProducts w.
Proof.
  split.
  - intros H.
    assert (E : fetchMoreProducts w = w).
    { apply fetchMoreProducts_guard. destruct H as [-> | ->]; auto. }
    now rewrite !E.
  - destruct (truthy (nextPage w)) eqn:T.
    + apply fetchMoreProducts_guard. right.
      now apply fetchMoreProducts_loading.
    + now rewrite !(fetchMoreProducts_guard w) by now left.
Qed.

Lemma loadMore_noop_when_busy_or_done_witness :
  loading (fetchMoreProducts listed) = true
  /\ fetchMoreProducts (fetchMoreProducts listed) = fetchMoreProducts listed
  /\ issued (fetchMoreProducts (fetchMoreProducts listed))
     = issued (fetchMoreProducts listed).
Proof.
  split; [reflexivity|].
  destruct (loadMore_noop_when_busy_or_done (fetchMoreProducts listed))
    as [H _].
  destruct (H (or_intror eq_refl)) as (E & Hi & _).
  split; [exact E | exact Hi].
Defined.

(** ** What one event does to the network bookkeeping *)

Ltac fields := repeat (cbn; autorewrite with frame); try reflexivity.

Lemma sameNet_refl (w : World) : sameNet w w.
Proof. now split. Qed.

Lemma fetchProducts_starts (w0 w : World) term :
  sameNet w0 w -> startsSearch term w0 (fetchProducts term w).
Proof.
  intros [H1 H2 H3 H4 H5].
  split; unfold fetchProducts, fetch, searchRequest, newRequest;
    destruct (searchUrl term); destruct (abortController w) eqn:E; fields;
    rewrite <- ?H1, <- ?H2, <- ?H3, <- ?H4, <- ?H5, ?E, ?app_nil_r;
    reflexivity.
Qed.

(** [fetchProducts] leaves the items, the cursor and the timers alone. *)
Lemma fetchProducts_products (w : World) term :
  products (fetchProducts term w) = products w.
Proof.
  unfold fetchProducts, fetch.
  destruct (searchUrl term), (abortController w); fields.
Qed.

Lemma fetchProducts_nextPage (w : World) term :
  nextPage (fetchProducts term w) = nextPage w.
Proof.
  unfold fetchProducts, fetch.
  destruct (searchUrl term), (abortController w); fields.
Qed.

Lemma fetchProducts_debounceTimer (w : World) term :
  debounceTimer (fetchProducts term w) = debounceTimer w.
Proof.
  unfold fetchProducts, fetch.
  destruct (searchUrl term), (abortController w); fields.
Qed.

Lemma fetchProducts_now (w : World) term :
  now (fetchProducts term w) = now w.
Proof.
  unfold fetchProducts, fetch.
  destruct (searchUrl term), (abortController w); fields.
Qed.

Lemma fetchProducts_timers (w : World) term :
  timers (fetchProducts term w) = timers w.
Proof.
  unfold fetchProducts, fetch.
  destruct (searchUrl term), (abortController w); fields.
Qed.

Lemma fetchProducts_timersCreated (w : World) term :
  timersCreated (fetchProducts term w) = timersCreated w.
Proof.
  unfold fetchProducts, fetch.
  destruct (searchUrl term), (abortController w); fields.
Qed.

#[local] Hint Rewrite
  fetchProducts_products fetchProducts_nextPage fetchProducts_debounceTimer
  fetchProducts_now fetchProducts_timers fetchProducts_timersCreated
  : frame.

Lemma fetchProducts_net (w0 w : World) term :
  sameNet w0 w -> NetEffect w0 (fetchProducts term w).
Proof.
  intro H. apply NetFreshSearch with (term := term).
  now apply fetchProducts_starts.
Qed.

Lemma fetchMoreProducts_net (w : World) :
  NetEffect w (fetchMoreProducts w).
Proof.
  unfold fetchMoreProducts.
  destruct (negb (truthy (nextPage w)) || loading w);
    [apply NetSame, sameNet_refl|].
  fields. destruct (nextPage w) as [u|] eqn:E.
  - apply NetContinuation with (u := u); unfold fetch; fields.
  - apply NetSame; split; fields.
Qed.

Lemma fetchProducts_resume_net (w : World) o :
  sameNet w (fetchProducts_resume o w).
Proof. destruct o; split; fields. Qed.

Lemma fetchMoreProducts_resume_net (w : World) o :
  sameNet w (fetchMoreProducts_resume o w).
Proof. destruct o; split; fields. Qed.

Lemma handleSearch_net (w : World) term : sameNet w (handleSearch term w).
Proof.
  split; unfold handleSearch; destruct (debounceTimer w) as [[|]|]; fields.
Qed.

Lemma disconnectedCallback_net (w : World) :
  sameNet w (disconnectedCallback w).
Proof.
  split; unfold disconnectedCallback; destruct (observer w); fields.
Qed.

Lemma withDom_net (f : Dom -> Dom) (w : World) : sameNet w (withDom f w).
Proof. split; fields. Qed.

Lemma sameNet_trans (w1 w2 w3 : World) :
  sameNet w1 w2 -> sameNet w2 w3 -> sameNet w1 w3.
Proof.
  intros [A1 A2 A3 A4 A5] [B1 B2 B3 B4 B5]. split; congruence.
Qed.

Lemma typed_net (w : World) value :
  sameNet w (handleSearch value (withDom (setValue value) w)).
Proof.
  eapply sameNet_trans; [apply withDom_net | apply handleSearch_net].
Qed.

Lemma settled_net (w w' : World) id :
  sameNet (dropRequest id w) w' -> NetEffect w w'.
Proof.
  intros [H1 H2 H3 H4 H5]. now apply NetSettled with (id := id).
Qed.

Lemma step_net (w : World) e : NetEffect w (step w e).
Proof.
  destruct e; cbn [step].
  - apply fetchProducts_net. now split.
  - apply NetSame, disconnectedCallback_net.
  - destruct (shadow w);
      [apply NetSame, typed_net | apply NetSame, sameNet_refl].
  - destruct (shadow w);
      [apply NetSame, typed_net | apply NetSame, sameNet_refl].
  - apply NetSame. now split.
  - destruct (findTimer id w) as [t|]; [|apply NetSame, sameNet_refl].
    destruct (due t <=? now w); [|apply NetSame, sameNet_refl].
    apply fetchProducts_net. now split.
  - destruct (findRequest rid0 w) as [r|]; [|apply NetSame, sameNet_refl].
    destruct (awaiter r); apply settled_net with (id := rid0).
    + apply fetchProducts_resume_net.
    + apply fetchMoreProducts_resume_net.
  - destruct (findObserver observer0 w) as [[o s]|];
      [|apply NetSame, sameNet_refl].
    unfold onIntersection.
    destruct (_ && _);
      [apply fetchMoreProducts_net | apply NetSame, sameNet_refl].
Qed.

(** ** Invariant of the network bookkeeping *)

Lemma NoDup_map_filter {A B} (f : A -> B) (p : A -> bool) l :
  NoDup (map f l) -> NoDup (map f (filter p l)).
Proof.
  induction l as [|a l IH]; cbn; intro H; [constructor|].
  inversion H as [|? ? Hn Hd]; subst.
  destruct (p a); cbn; auto. constructor; auto.
  intro Hin. apply Hn. apply in_map_iff in Hin.
  destruct Hin as (x & E & Hx). apply filter_In in Hx.
  apply in_map_iff. exists x. tauto.
Qed.

Lemma NoDup_map_snoc {A B} (f : A -> B) l x :
  NoDup (map f l) -> (forall a, In a l -> f a <> f x) ->
  NoDup (map f (l ++ [x])).
Proof.
  induction l as [|a l IH]; cbn; intros H Hx.
  - constructor; [tauto | constructor].
  - inversion H as [|? ? Hn Hd]; subst. constructor.
    + rewrite map_app, in_app_iff. cbn. intros [Hin|[E|[]]]; [tauto|].
      apply (Hx a); auto.
    + apply IH; auto.
Qed.

Lemma netInv_init : netInv init.
Proof. split; cbn; try tauto; [constructor | discriminate]. Qed.

Lemma netInv_issue (w w' : World) u a :
  netInv w ->
  inflight w' = inflight w ++ [newRequest w u a] ->
  issued w' = issued w ++ [newRequest w u a] ->
  (forall r, In r (inflight w') -> rid r <= List.length (issued w'))
  /\ NoDup (map rid (inflight w')).
Proof.
  intros I Hi Hs. rewrite Hi, Hs, length_app. cbn. split.
  - intros r Hr. apply in_app_iff in Hr. destruct Hr as [Hr|[<-|[]]].
    + apply (rids_issued w I) in Hr. lia.
    + cbn. lia.
  - apply NoDup_map_snoc; [apply (rids_nodup w I)|].
    intros r Hr. apply (rids_issued w I) in Hr. cbn. lia.
Qed.

Lemma netInv_effect (w w' : World) :
  netInv w -> NetEffect w w' -> netInv w'.
Proof.
  intros I [[H1 H2 H3 H4 H5] | id H1 H2 H3 H4 H5 | u H1 H2 H3 H4 H5
           | term [H1 H2 H3 H4 H5]].
  - destruct I as [I1 I2 I3 I4 I5].
    split; rewrite ?H1, ?H2, ?H3, ?H4, ?H5; assumption.
  - destruct I as [I1 I2 I3 I4 I5].
    split; rewrite ?H1, ?H2, ?H3, ?H4, ?H5; try assumption.
    + intros r Hr. apply filter_In in Hr. apply I1, Hr.
    + now apply NoDup_map_filter.
    + intros r c Hr. apply filter_In in Hr. apply I5, Hr.
  - destruct (netInv_issue w w' u _ I H4 H5) as [J1 J2].
    destruct I as [I1 I2 I3 I4 I5].
    split; try assumption; rewrite ?H1, ?H2, ?H3; try assumption.
    intros r c Hr Ha. rewrite H4 in Hr. apply in_app_iff in Hr.
    destruct Hr as [Hr|[<-|[]]]; [now apply (I5 r)|discriminate].
  - assert (J : (forall r, In r (inflight w') ->
                             rid r <= List.length (issued w'))
                 /\ NoDup (map rid (inflight w'))).
    { unfold searchRequest in H4, H5. destruct (searchUrl term).
      - exact (netInv_issue w w' _ _ I H4 H5).
      - rewrite app_nil_r in H4, H5. rewrite H4, H5. split; apply I. }
    destruct J as [J1 J2].
    destruct I as [I1 I2 I3 I4 I5].
    assert (A : forall k, In k (aborted w') -> k <= controllersCreated w).
    { intros k Hk. rewrite H2 in Hk.
      destruct (abortController w) as [old|] eqn:E; [|now apply I3].
      destruct Hk as [<-|Hk]; [apply (I4 old eq_refl) | now apply I3]. }
    split; try assumption; rewrite ?H1, ?H3.
    + intros k Hk. apply A in Hk. lia.
    + intros k [= <-]. split; [lia|]. intro Hk. apply A in Hk. lia.
    + intros r k Hr Ha. rewrite H4 in Hr. apply in_app_iff in Hr.
      destruct Hr as [Hr|Hr].
      * destruct (I5 r k Hr Ha) as [Hle Hk]. split; [lia|].
        right. rewrite H2. destruct Hk as [Hk|Hk].
        -- rewrite Hk. now left.
        -- destruct (abortController w); [now right | exact Hk].
      * unfold searchRequest in Hr.
        destruct (searchUrl term); [|destruct Hr].
        destruct Hr as [<-|[]]. cbn in Ha. injection Ha as <-.
        split; [lia | now left].
Qed.

Lemma netInv_step (w : World) e : netInv w -> netInv (step w e).
Proof. intro I. exact (netInv_effect w _ I (step_net w e)). Qed.

Lemma netInv_run evs : forall w : World, netInv w -> netInv (run w evs).
Proof.
  induction evs as [|e evs IH]; intros w I; [exact I|].
  apply IH, netInv_step, I.
Qed.

Lemma reachable_netInv (w : World) : reachable w -> netInv w.
Proof. intros [evs ->]. apply netInv_run, netInv_init. Qed.

Lemma findRequest_In (w : World) id r :
  findRequest id w = Some r -> In r (inflight w) /\ rid r = id.
Proof.
  unfold findRequest. intro H. apply find_some in H.
  destruct H as [H E]. apply Nat.eqb_eq in E. tauto.
Qed.

(** ** Superseded fresh searches *)

Lemma NoDup_map_inj {A B} (f : A -> B) l a b :
  NoDup (map f l) -> In a l -> In b l -> f a = f b -> a = b.
Proof.
  induction l as [|x l IH]; cbn; intros H Ha Hb E; [tauto|].
  inversion H as [|? ? Hn Hd]; subst.
  destruct Ha as [->|Ha], Hb as [->|Hb]; auto.
  - exfalso. apply Hn. rewrite E. now apply in_map.
  - exfalso. apply Hn. rewrite <- E. now apply in_map.
Qed.

Lemma searchRequest_In (w : World) term r :
  In r (searchRequest w term) ->
  rid r = S (List.length (issued w))
  /\ awaiter r = InFetchProducts (S (controllersCreated w)).
Proof.
  unfold searchRequest. destruct (searchUrl term); [|intros []].
  intros [<-|[]]. now split.
Qed.

Lemma doomed_effect r c (w w' : World) :
  doomed r c w -> NetEffect w w' -> doomed r c w'.
Proof.
  intros [D1 D2 D3] [[H1 H2 H3 H4 H5] | id H1 H2 H3 H4 H5 | u H1 H2 H3 H4 H5
                     | term [H1 H2 H3 H4 H5]];
    split; rewrite ?H2, ?H4, ?H5, ?length_app; cbn; try assumption; try lia.
  - intros r' Hr. apply filter_In in Hr. apply D3, Hr.
  - intros r' Hr E. apply in_app_iff in Hr.
    destruct Hr as [Hr|[<-|[]]]; [now apply D3|]. cbn in E. lia.
  - destruct (abortController w); [now right | assumption].
  - intros r' Hr E. apply in_app_iff in Hr.
    destruct Hr as [Hr|Hr]; [now apply D3|].
    apply searchRequest_In in Hr. destruct Hr as [Hr _]. lia.
Qed.

Lemma doomed_run r c evs : forall w : World,
  doomed r c w -> doomed r c (run w evs).
Proof.
  induction evs as [|e evs IH]; intros w D; [exact D|].
  apply IH. exact (doomed_effect r c w _ D (step_net w e)).
Qed.

Lemma doomed_response_ignored r c (w : World) o :
  awaiter r = InFetchProducts c ->
  doomed r c w ->
  visible (step w (Response (rid r) o)) = visible w.
Proof.
  intros Ha [D1 D2 D3]. cbn [step].
  destruct (findRequest (rid r) w) as [r'|] eqn:F; [|reflexivity].
  apply findRequest_In in F. destruct F as [Hin E].
  rewrite (D3 r' Hin E), Ha.
  assert (S : settle r o (dropRequest (rid r) w) = AbortErr).
  { unfold settle, signal. rewrite Ha. cbn.
    replace (existsb (Nat.eqb c) (aborted w)) with true; [reflexivity|].
    symmetry. apply existsb_exists. exists c. split; [exact D1|].
    apply Nat.eqb_refl. }
  rewrite S. reflexivity.
Qed.

Lemma starts_dooms (w w' : World) r c term :
  netInv w -> In r (inflight w) -> awaiter r = InFetchProducts c ->
  startsSearch term w w' -> doomed r c w'.
Proof.
  intros I Hin Ha [H1 H2 H3 H4 H5].
  destruct (superseded_aborted w I r c Hin Ha) as [_ Hc].
  split; rewrite ?H2, ?H4, ?H5, ?length_app; cbn.
  - destruct Hc as [Hc|Hc]; [rewrite Hc; now left|].
    destruct (abortController w); [now right | assumption].
  - apply (rids_issued w I) in Hin. lia.
  - intros r' Hr E. apply in_app_iff in Hr.
    destruct Hr as [Hr|Hr].
    + exact (NoDup_map_inj rid _ r' r (rids_nodup w I) Hr Hin E).
    + apply (rids_issued w I) in Hin.
      apply searchRequest_In in Hr. destruct Hr as [Hr _]. lia.
Qed.

(** Only the start of a fresh search advances the generation. *)
Lemma generation_advances (w : World) e :
  generation (step w e) = S (generation w) ->
  exists term, startsSearch term w (step w e).
Proof.
  unfold generation. intro G.
  destruct (step_net w e) as [[_ _ H _ _] | id _ _ H _ _ | u _ _ H _ _
                             | term H];
    [rewrite H in G; lia .. | now exists term].
Qed.

(** C2. Take any fresh-search request pending in a reachable state, and an
    event that starts a new fresh search (the debounce timer firing, or an
    attach), advancing the generation.  Whatever happens next and whenever
    the response to the old request finally arrives, with whatever
    outcome, delivering it changes neither [items], nor the cursor, nor
    [loading], nor the rendered tree. *)
Theorem superseded_search_response_ignored
    (w : World) r c e evs o :
  reachable w ->
  In r (inflight w) ->
  awaiter r = InFetchProducts c ->
  generation (step w e) = S (generation w) ->
  let w1 := run (step w e) evs in
  visible (step w1 (Response (rid r) o)) = visible w1.
Proof.
  intros R Hin Ha G w1. apply (doomed_response_ignored r c w1 o Ha).
  destruct (generation_advances w e G) as (term & St).
  apply doomed_run, (starts_dooms w _ r c term); try assumption.
  now apply reachable_netInv.
Qed.

(** ** The shadow tree exists whenever a callback can run *)

Lemma updateLoadingState_mounted (w : World) :
  isSome (shadow (updateLoadingState w)) = isSome (shadow w).
Proof.
  open_world w. unfold updateLoadingState. case_split; reflexivity.
Qed.

Lemma updateList_mounted (w : World) :
  isSome (shadow (updateList w)) = isSome (shadow w).
Proof.
  open_world w. unfold updateList, setupIntersectionObserver.
  case_split; reflexivity.
Qed.

Lemma withDom_mounted (f : Dom -> Dom) (w : World) :
  isSome (shadow (withDom f w)) = isSome (shadow w).
Proof. unfold withDom. destruct (shadow w) eqn:E; cbn; now rewrite ?E. Qed.

#[local] Hint Rewrite
  updateLoadingState_mounted updateList_mounted withDom_mounted : frame.

Lemma fetchProducts_mounted (w : World) term :
  isSome (shadow (fetchProducts term w)) = isSome (shadow w).
Proof.
  unfold fetchProducts, fetch.
  destruct (searchUrl term), (abortController w); fields.
Qed.

Lemma fetchMoreProducts_mounted (w : World) :
  isSome (shadow (fetchMoreProducts w)) = isSome (shadow w).
Proof.
  unfold fetchMoreProducts, fetch.
  destruct (negb (truthy (nextPage w)) || loading w); [reflexivity|].
  fields. destruct (nextPage w); fields.
Qed.

Lemma fetchProducts_resume_mounted (w : World) o :
  isSome (shadow (fetchProducts_resume o w)) = isSome (shadow w).
Proof. destruct o; fields. Qed.

Lemma fetchMoreProducts_resume_mounted (w : World) o :
  isSome (shadow (fetchMoreProducts_resume o w)) = isSome (shadow w).
Proof. destruct o; fields. Qed.

Lemma handleSearch_mounted (w : World) term :
  isSome (shadow (handleSearch term w)) = isSome (shadow w).
Proof. unfold handleSearch. destruct (debounceTimer w) as [[|]|]; fields. Qed.

Lemma step_mounted (w : World) e :
  isSome (shadow w) = true -> isSome (shadow (step w e)) = true.
Proof.
  intro M. destruct e; cbn [step].
  - unfold connectedCallback. rewrite fetchProducts_mounted. reflexivity.
  - unfold disconnectedCallback. destruct (observer w); fields; exact M.
  - destruct (shadow w) eqn:E; [|discriminate].
    now rewrite handleSearch_mounted, withDom_mounted, E.
  - destruct (shadow w) eqn:E; [|discriminate].
    now rewrite handleSearch_mounted, withDom_mounted, E.
  - exact M.
  - destruct (findTimer id w); [|exact M].
    destruct (due t <=? now w); [|exact M].
    unfold search. rewrite fetchProducts_mounted. exact M.
  - destruct (findRequest rid0 w); [|exact M].
    destruct (awaiter r).
    + rewrite fetchProducts_resume_mounted. exact M.
    + rewrite fetchMoreProducts_resume_mounted. exact M.
  - destruct (findObserver observer0 w) as [[? ?]|]; [|exact M].
    unfold onIntersection. destruct (_ && _); [|exact M].
    now rewrite fetchMoreProducts_mounted.
Qed.

Lemma domInv_init : domInv init.
Proof. split. cbn. auto. Qed.

Lemma domInv_step (w : World) e : domInv w -> domInv (step w e).
Proof.
  intros [I]. split. intro M.
  destruct (isSome (shadow w)) eqn:Mw.
  - rewrite (step_mounted w e Mw) in M. discriminate.
  - destruct (I eq_refl) as (Hi & Ht & Ho).
    destruct e; cbn [step] in *.
    + unfold connectedCallback in M.
      rewrite fetchProducts_mounted in M. discriminate.
    + unfold disconnectedCallback.
      destruct (observer w); cbn; rewrite ?Ho; auto.
    + destruct (shadow w); [discriminate | auto].
    + destruct (shadow w); [discriminate | auto].
    + cbn. auto.
    + unfold findTimer. rewrite Ht. cbn. auto.
    + unfold findRequest. rewrite Hi. cbn. auto.
    + unfold findObserver. rewrite Ho. cbn. auto.
Qed.

Lemma domInv_run evs : forall w : World, domInv w -> domInv (run w evs).
Proof.
  induction evs as [|e evs IH]; intros w I; [exact I|].
  apply IH, domInv_step, I.
Qed.

Lemma reachable_domInv (w : World) : reachable w -> domInv w.
Proof. intros [evs ->]. apply domInv_run, domInv_init. Qed.

Lemma pending_mounted (w : World) id r :
  domInv w -> findRequest id w = Some r -> exists d, shadow w = Some d.
Proof.
  intros [I] F. destruct (shadow w) as [d|] eqn:E; [now exists d|].
  destruct (I eq_refl) as (Hi & _).
  unfold findRequest in F. rewrite Hi in F. discriminate.
Qed.

(** ** Fresh searches that fail *)

Lemma settle_current (w : World) r c o id :
  netInv w -> awaiter r = InFetchProducts c -> abortController w = Some c ->
  settle r o (dropRequest id w) = o.
Proof.
  intros I Ha Hc. unfold settle, signal. rewrite Ha. cbn.
  destruct (existsb (Nat.eqb c) (aborted w)) eqn:E; [|reflexivity].
  apply existsb_exists in E. destruct E as (k & Hk & E).
  apply Nat.eqb_eq in E. subst k.
  now destruct (current_not_aborted w I c Hc).
Qed.

(** The [catch] block of [fetchProducts] by itself.  When the pending
    fresh-search request of the current controller ends in an error that
    is not a cancellation, [loading] becomes false, [items] and the cursor
    are not written, and the list is rendered again from them: the "no
    results" entry when there are no items.  When it ends in a
    cancellation, nothing the user can see changes. *)
Lemma fresh_search_failure_outcome (w : World) id r c o :
  reachable w ->
  findRequest id w = Some r ->
  awaiter r = InFetchProducts c ->
  abortController w = Some c ->
  isFailure o ->
  let w' := step w (Response id o) in
  if isCancellation o then visible w' = visible w
  else
    loading w' = false
    /\ products w' = products w
    /\ nextPage w' = nextPage w
    /\ exists d',
         shadow w' = Some d'
         /\ listContainer d' = renderedList (set_loading false w)
         /\ (products w = [] -> listContainer d' = [NoResultsEl]).
Proof.
  intros R F Ha Hc Ho. cbn [step]. rewrite F, Ha.
  rewrite (settle_current w r c o id (reachable_netInv w R) Ha Hc).
  destruct (pending_mounted w id r (reachable_domInv w R) F) as (d & Hd).
  assert (Hfail :
    let w' := updateList (set_loading false (dropRequest id w)) in
    loading w' = false /\ products w' = products w
    /\ nextPage w' = nextPage w
    /\ exists d', shadow w' = Some d'
         /\ listContainer d' = renderedList (set_loading false w)
         /\ (products w = [] -> listContainer d' = [NoResultsEl])).
  { cbn. autorewrite with frame. cbn. repeat split; try reflexivity.
    destruct (updateList_shadow (set_loading false (dropRequest id w)) d Hd)
      as (d' & Hs & Hl).
    exists d'. split; [exact Hs|]. split; [exact Hl|].
    intro Hp. rewrite Hl. unfold renderedList. cbn. now rewrite Hp. }
  destruct o; cbn; try exact Hfail; [contradiction | reflexivity].
Qed.

(** C4 fails on the code.  The [catch] block never empties [items]: they
    are empty after a failed search only because the closure of the
    debounce timer empties them before it calls [fetchProducts]
    ([debounced_failure_clears_items] below), and [connectedCallback]
    calls [fetchProducts] without doing so.  Here the element is attached,
    lists one product, is detached and attached again; the fetch started
    by the second attach, the pending one of the current controller, fails
    with a network error.  The items are still there, and they are
    rendered. *)
Theorem fresh_failure_does_not_clear_items :
  findRequest 2 reattached
  = Some {| rid := 2; url := baseUrl; awaiter := InFetchProducts 2 |}
  /\ abortController reattached = Some 2
  /\ aborted reattached = [1]
  /\ products (step reattached (Response 2 NetworkFail)) = [valve]
  /\ products (step reattached (Response 2 NetworkFail)) <> []
  /\ loading (step reattached (Response 2 NetworkFail)) = false
  /\ shadow (step reattached (Response 2 NetworkFail))
     = Some {| inputValue := EmptyString; inputSuggested := true;
               listContainer := [suggestionItem 0 valve] |}.
Proof.
  repeat apply conj; try (vm_compute; reflexivity);
    intro H; vm_compute in H; discriminate H.
Qed.

(** ** The intersection observer *)

Lemma obsInv_same (w w' : World) :
  observer w' = observer w -> liveObservers w' = liveObservers w ->
  obsInv w -> obsInv w'.
Proof. intros H1 H2 [I1 I2]. split; rewrite ?H1, ?H2; assumption. Qed.

Lemma obsInv_disconnect_current (w : World) o :
  obsInv w -> observer w = Some o ->
  filter (fun p => negb (fst p =? o)) (liveObservers w) = [].
Proof.
  intros [I1 I2] Ho.
  destruct (liveObservers w) as [|p [|q l]]; cbn in *; [reflexivity| |lia].
  assert (E : Some o = Some (fst p)) by (rewrite <- Ho; apply I1; now left).
  injection E as ->. now rewrite Nat.eqb_refl.
Qed.

Lemma obsInv_none (w : World) :
  obsInv w -> observer w = None -> liveObservers w = [].
Proof.
  intros [I1 _] Ho. destruct (liveObservers w) as [|p l]; [reflexivity|].
  specialize (I1 p (or_introl eq_refl)). congruence.
Qed.

Lemma existsb_isSentinel_items s ps : forall k,
  existsb (isSentinel s) (suggestionItems k ps) = false.
Proof. induction ps as [|p ps IH]; intro k; cbn; [reflexivity | apply IH]. Qed.

Lemma updateList_no_attach (w : World) :
  attaches w = false ->
  liveObservers (updateList w) = liveObservers w
  /\ observer (updateList w) = observer w
  /\ observersCreated (updateList w) = observersCreated w
  /\ sentinelsCreated (updateList w) = sentinelsCreated w.
Proof.
  open_world w. unfold attaches, updateList, withDom. cbn. intro H.
  case_split; try discriminate; auto.
Qed.

Lemma updateList_attach (w : World) d :
  shadow w = Some d ->
  attaches w = true ->
  liveObservers (updateList w)
  = match observer w with
    | Some o => filter (fun p => negb (fst p =? o)) (liveObservers w)
    | None => liveObservers w
    end ++ [(S (observersCreated w), S (sentinelsCreated w))]
  /\ observer (updateList w) = Some (S (observersCreated w))
  /\ observersCreated (updateList w) = S (observersCreated w)
  /\ sentinelsCreated (updateList w) = S (sentinelsCreated w).
Proof.
  open_world w. unfold attaches, updateList, withDom, setupIntersectionObserver.
  cbn. intros -> H. case_split; try discriminate; auto.
Qed.

(** What [updateList] does to the observer, on a rendered tree. *)
Lemma updateList_observer (w : World) d :
  shadow w = Some d ->
  obsInv w ->
  let w' := updateList w in
  if attaches w then
    liveObservers w'
    = [(S (observersCreated w), S (sentinelsCreated w))]
    /\ observer w' = Some (S (observersCreated w))
    /\ observersCreated w' = S (observersCreated w)
    /\ sentinelsCreated w' = S (sentinelsCreated w)
    /\ attached (S (sentinelsCreated w)) w' = true
  else
    liveObservers w' = liveObservers w
    /\ observer w' = observer w
    /\ observersCreated w' = observersCreated w
    /\ sentinelsCreated w' = sentinelsCreated w
    /\ forall s, attached s w' = false.
Proof.
  intros Hd I. cbn zeta.
  assert (A : forall s, attached s (updateList w)
                        = existsb (isSentinel s) (renderedList w)).
  { intro s. unfold attached.
    destruct (updateList_shadow w d Hd) as (d' & -> & ->). reflexivity. }
  destruct (attaches w) eqn:T.
  - destruct (updateList_attach w d Hd T) as (L1 & L2 & L3 & L4).
    repeat apply conj; try assumption.
    + rewrite L1. destruct (observer w) as [o|] eqn:Ho.
      * now rewrite (obsInv_disconnect_current w o I Ho).
      * now rewrite (obsInv_none w I Ho).
    + rewrite A. unfold attaches in T. unfold renderedList.
      destruct (products w) as [|p ps] eqn:Hp; [discriminate|].
      cbn in T. rewrite T. rewrite <- Hp.
      rewrite !existsb_app, existsb_isSentinel_items. cbn.
      now rewrite Nat.eqb_refl.
  - destruct (updateList_no_attach w T) as (L1 & L2 & L3 & L4).
    repeat apply conj; try assumption.
    intro s. rewrite A. unfold attaches in T. unfold renderedList.
    destruct (products w) as [|p ps] eqn:Hp.
    + destruct (loading w); reflexivity.
    + cbn in T. rewrite T. rewrite <- Hp.
      rewrite !existsb_app, existsb_isSentinel_items.
      destruct (loading w); reflexivity.
Qed.

Lemma obsInv_init : obsInv init.
Proof. split; cbn; [tauto | lia]. Qed.

Lemma obsInv_updateList (w : World) : obsInv w -> obsInv (updateList w).
Proof.
  intro I. destruct (shadow w) as [d|] eqn:Hd.
  - pose proof (updateList_observer w d Hd I) as H. cbn zeta in H.
    destruct (attaches w).
    + destruct H as (L1 & L2 & _). split; rewrite L1, ?L2; cbn; [|lia].
      intros p [<-|[]]. reflexivity.
    + destruct H as (L1 & L2 & _). now apply (obsInv_same w).
  - unfold updateList. now rewrite Hd.
Qed.

Lemma obsInv_fetchProducts (w : World) term :
  obsInv w -> obsInv (fetchProducts term w).
Proof.
  intro I. unfold fetchProducts. destruct (searchUrl term).
  - revert I. apply obsInv_same; unfold fetch;
      destruct (abortController w); fields.
  - apply obsInv_updateList. revert I.
    apply obsInv_same; destruct (abortController w); fields.
Qed.

Lemma obsInv_fetchMoreProducts (w : World) :
  obsInv w -> obsInv (fetchMoreProducts w).
Proof.
  apply obsInv_same; unfold fetchMoreProducts, fetch;
    destruct (negb (truthy (nextPage w)) || loading w); fields;
    destruct (nextPage w); fields.
Qed.

Lemma obsInv_fetchProducts_resume (w : World) o :
  obsInv w -> obsInv (fetchProducts_resume o w).
Proof.
  intro I. destruct o; cbn; try exact I; apply obsInv_updateList;
    revert I; apply obsInv_same; reflexivity.
Qed.

Lemma obsInv_fetchMoreProducts_resume (w : World) o :
  obsInv w -> obsInv (fetchMoreProducts_resume o w).
Proof.
  intro I. destruct o; cbn; apply obsInv_updateList;
    revert I; apply obsInv_same; reflexivity.
Qed.

Lemma obsInv_handleSearch (w : World) term :
  obsInv w -> obsInv (handleSearch term w).
Proof.
  apply obsInv_same; unfold handleSearch;
    destruct (debounceTimer w) as [[|]|]; fields.
Qed.

Lemma obsInv_step (w : World) e : obsInv w -> obsInv (step w e).
Proof.
  intro I. destruct e; cbn [step].
  - apply obsInv_fetchProducts. revert I. now apply obsInv_same.
  - unfold disconnectedCallback.
    destruct (observer w) as [o|] eqn:Ho; [|exact I].
    split; cbn; rewrite (obsInv_disconnect_current w o I Ho); cbn;
      [tauto | lia].
  - destruct (shadow w); [|exact I].
    apply obsInv_handleSearch. revert I. apply obsInv_same; fields.
  - destruct (shadow w); [|exact I].
    apply obsInv_handleSearch. revert I. apply obsInv_same; fields.
  - revert I. now apply obsInv_same.
  - destruct (findTimer id w); [|exact I].
    destruct (due t <=? now w); [|exact I].
    apply obsInv_fetchProducts. revert I. now apply obsInv_same.
  - destruct (findRequest rid0 w); [|exact I].
    assert (I' : obsInv (dropRequest rid0 w))
      by (revert I; now apply obsInv_same).
    destruct (awaiter r);
      [now apply obsInv_fetchProducts_resume
      | now apply obsInv_fetchMoreProducts_resume].
  - destruct (findObserver observer0 w) as [[? ?]|]; [|exact I].
    unfold onIntersection. destruct (_ && _); [|exact I].
    now apply obsInv_fetchMoreProducts.
Qed.

Lemma obsInv_run evs : forall w : World, obsInv w -> obsInv (run w evs).
Proof.
  induction evs as [|e evs IH]; intros w I; [exact I|].
  apply IH, obsInv_step, I.
Qed.

Lemma reachable_obsInv (w : World) : reachable w -> obsInv w.
Proof. intros [evs ->]. apply obsInv_run, obsInv_init. Qed.

Lemma fetchProducts_resume_renders (w : World) o :
  isCancellation o = false ->
  exists w2, fetchProducts_resume o w = updateList w2 /\ sameObserver w w2.
Proof.
  destruct o; cbn; intro H; try discriminate;
    eexists; (split; [reflexivity | now split]).
Qed.

Lemma fetchMoreProducts_resume_renders (w : World) o :
  exists w2, fetchMoreProducts_resume o w = updateList w2
             /\ sameObserver w w2.
Proof. destruct o; cbn; eexists; (split; [reflexivity | now split]). Qed.

(** The render of a search whose URL cannot be built: the items have just
    been emptied, so nothing is attached. *)
Lemma search_throws_observer (w : World) term :
  obsInv w ->
  isSome (shadow w) = true ->
  searchUrl term = None ->
  liveObservers (search term w) = liveObservers w
  /\ observer (search term w) = observer w
  /\ forall s, attached s (search term w) = false.
Proof.
  intros I M U. unfold search, fetchProducts. rewrite U.
  set (w3 := set_loading false (updateLoadingState _)).
  assert (F : isSome (shadow w3) = isSome (shadow w)
              /\ liveObservers w3 = liveObservers w
              /\ observer w3 = observer w
              /\ products w3 = []).
  { subst w3. cbn [shadow self set_loading liveObservers observer env
                   products].
    autorewrite with frame. cbn.
    destruct (abortController w); cbn; auto. }
  destruct F as (F1 & F2 & F3 & F4).
  destruct (shadow w3) as [d|] eqn:Hd; [|rewrite M in F1; discriminate].
  assert (I3 : obsInv w3) by (revert I; now apply obsInv_same).
  pose proof (updateList_observer w3 d Hd I3) as H. cbn zeta in H.
  assert (A : attaches w3 = false) by (unfold attaches; now rewrite F4).
  rewrite A in H. destruct H as (L1 & L2 & _ & _ & L5).
  rewrite L1, L2. auto.
Qed.

(** C5, as the code has it.  At most one observer is live in every
    reachable state.  When a settled fetch leads to a render: if the
    rendered state has items and a non-empty cursor, a new sentinel is the
    last result child and a new observer, the only live one, observes it
    (the previous one has been disconnected); otherwise no sentinel is in
    the list, and the observer that was live, if any, is left as it is,
    watching an element that is no longer in the tree.  The only other
    render, that of a debounced search whose term cannot be encoded, has
    no items: it leaves no sentinel and leaves the observer as it is. *)
Theorem observer_after_render (w : World) :
  reachable w ->
  List.length (liveObservers w) <= 1
  /\ (forall id r o,
        findRequest id w = Some r ->
        rendersOn r o (dropRequest id w) = true ->
        let w' := step w (Response id o) in
        if attaches w' then
          liveObservers w'
          = [(S (observersCreated w), S (sentinelsCreated w))]
          /\ observer w' = Some (S (observersCreated w))
          /\ attached (S (sentinelsCreated w)) w' = true
        else
          liveObservers w' = liveObservers w
          /\ observer w' = observer w
          /\ forall s, attached s w' = false)
  /\ (forall id t,
        findTimer id w = Some t ->
        due t <= now w ->
        searchUrl (arg t) = None ->
        let w' := step w (TimerFires id) in
        liveObservers w' = liveObservers w
        /\ observer w' = observer w
        /\ forall s, attached s w' = false).
Proof.
  intro R. pose proof (reachable_obsInv w R) as I. split; [apply I|].
  split.
  { intros id r o F Hr. cbn [step]. rewrite F.
    destruct (pending_mounted w id r (reachable_domInv w R) F) as (d & Hd).
    assert (E : exists w2,
               match awaiter r with
               | InFetchProducts _ =>
                   fetchProducts_resume (settle r o (dropRequest id w))
                     (dropRequest id w)
               | InFetchMoreProducts =>
                   fetchMoreProducts_resume (settle r o (dropRequest id w))
                     (dropRequest id w)
               end = updateList w2 /\ sameObserver w w2).
    { unfold rendersOn in Hr. destruct (awaiter r).
      - apply negb_true_iff in Hr.
        destruct (fetchProducts_resume_renders (dropRequest id w) _ Hr)
          as (w2 & E & [S1 S2 S3 S4 S5]).
        exists w2. split; [exact E | now split].
      - destruct (fetchMoreProducts_resume_renders (dropRequest id w)
                    (settle r o (dropRequest id w)))
          as (w2 & E & [S1 S2 S3 S4 S5]).
        exists w2. split; [exact E | now split]. }
    destruct E as (w2 & -> & [S1 S2 S3 S4 S5]).
    assert (I2 : obsInv w2) by (revert I; now apply obsInv_same).
    assert (Hd2 : shadow w2 = Some d) by now rewrite S1.
    pose proof (updateList_observer w2 d Hd2 I2) as H. cbn zeta in H.
    assert (A : attaches (updateList w2) = attaches w2).
    { unfold attaches. now autorewrite with frame. }
    rewrite A. destruct (attaches w2).
    - destruct H as (L1 & L2 & _ & _ & L5).
      rewrite S4, S5 in *. auto.
    - destruct H as (L1 & L2 & _ & _ & L5).
      rewrite S2, S3 in *. auto. }
  intros id t F D U. cbn [step]. rewrite F.
  apply Nat.leb_le in D. rewrite D.
  assert (M : isSome (shadow w) = true).
  { destruct (isSome (shadow w)) eqn:M; [reflexivity|].
    destruct (reachable_domInv w R) as [Q].
    destruct (Q M) as (_ & Ht & _).
    unfold findTimer in F. rewrite Ht in F. discriminate. }
  destruct (search_throws_observer (clearTimeout id w) (arg t))
    as (L1 & L2 & L3); auto.
  revert I. now apply obsInv_same.
Qed.

(** ** The debounce timer *)

Lemma filter_all_out (id : nat) (l : list Timer) :
  (forall t, In t l -> tid t = id) ->
  filter (fun t => negb (tid t =? id)) l = [].
Proof.
  induction l as [|t l IH]; cbn; intro H; [reflexivity|].
  rewrite (H t (or_introl eq_refl)), Nat.eqb_refl. cbn. apply IH. auto.
Qed.

Lemma handleSearch_arms (w : World) term :
  timersInv w ->
  let w' := handleSearch term w in
  timers w'
  = [{| tid := S (timersCreated w); due := now w + 300; arg := term |}]
  /\ debounceTimer w' = Some (S (timersCreated w))
  /\ now w' = now w
  /\ issued w' = issued w.
Proof.
  intro I. unfold handleSearch.
  destruct (debounceTimer w) as [[|id]|] eqn:E; cbn.
  - destruct (timers w) as [|t l] eqn:Ht; [auto|].
    destruct (I t) as [H1 H2]; [rewrite Ht; now left|].
    rewrite E in H1. injection H1 as H1. congruence.
  - rewrite filter_all_out; [auto|].
    intros t Ht. destruct (I t Ht) as [H1 _]. rewrite E in H1. congruence.
  - destruct (timers w) as [|t l] eqn:Ht; [auto|].
    destruct (I t) as [H1 H2]; [rewrite Ht; now left|]. congruence.
Qed.

Lemma freshUrls_app (w w' : World) r :
  issued w' = issued w ++ [r] ->
  freshUrls w'
  = freshUrls w ++ (if isFresh r then [url r] else []).
Proof.
  unfold freshUrls. intros ->. rewrite filter_app, map_app. cbn.
  now destruct (isFresh r).
Qed.

Lemma freshUrls_search (w w' : World) term :
  issued w' = issued w ++ searchRequest w term ->
  freshUrls w' = freshUrls w ++ urlsOf term.
Proof.
  unfold freshUrls, searchRequest, urlsOf. intros ->.
  rewrite filter_app, map_app. now destruct (searchUrl term).
Qed.

Lemma freshUrls_same (w w' : World) :
  issued w' = issued w -> freshUrls w' = freshUrls w.
Proof. unfold freshUrls. now intros ->. Qed.

Ltac unchanged :=
  repeat apply conj; try apply freshUrls_same; fields; try (cbn; lia).

(** What a quiet event does to the timers and to the fresh searches: it
    either leaves both alone, or it is a timer whose delay has elapsed,
    which fires once and starts the search for its term. *)
Lemma step_quiet (w : World) e :
  quiet e = true ->
  (timers (step w e) = timers w
   /\ debounceTimer (step w e) = debounceTimer w
   /\ freshUrls (step w e) = freshUrls w
   /\ now (step w e) = now w + elapse e)
  \/ (exists t,
        In t (timers w) /\ due t <= now w
        /\ timers (step w e)
           = filter (fun x => negb (tid x =? tid t)) (timers w)
        /\ debounceTimer (step w e) = debounceTimer w
        /\ freshUrls (step w e) = freshUrls w ++ urlsOf (arg t)
        /\ now (step w e) = now w
        /\ elapse e = 0).
Proof.
  intro Q. destruct e; try discriminate; cbn [step elapse].
  - left. unfold disconnectedCallback. destruct (observer w); unchanged.
  - left. unchanged.
  - destruct (findTimer id w) as [t|] eqn:F; [|left; unchanged].
    destruct (due t <=? now w) eqn:D; [|left; unchanged].
    right. exists t. unfold findTimer in F. apply find_some in F.
    destruct F as [Hin E]. apply Nat.eqb_eq in E. subst id.
    apply Nat.leb_le in D.
    set (w0 := set_nextPage None (set_products [] (clearTimeout (tid t) w))).
    destruct (fetchProducts_starts w w0 (arg t)) as [_ _ _ _ H5];
      [now split|].
    unfold search. fold w0.
    repeat apply conj; try assumption;
      try (subst w0; fields; fail).
    apply (freshUrls_search w _ _ H5).
  - left. destruct (findRequest rid0 w) as [r|]; [|unchanged].
    destruct (awaiter r);
      destruct (settle r o (dropRequest rid0 w)); unchanged.
  - left. destruct (findObserver observer0 w) as [[? ?]|]; [|unchanged].
    unfold onIntersection. destruct (_ && _); [|unchanged].
    unfold fetchMoreProducts.
    destruct (negb (truthy (nextPage w)) || loading w); [unchanged|].
    autorewrite with frame. cbn.
    destruct (nextPage w) eqn:E; [|unchanged].
    repeat apply conj; try (unfold fetch; fields; cbn; lia).
    erewrite freshUrls_app by (unfold fetch; fields).
    cbn. rewrite app_nil_r. apply freshUrls_same. fields.
Qed.

Lemma search_effect (w : World) term :
  timers (search term w) = timers w
  /\ freshUrls (search term w) = freshUrls w ++ urlsOf term.
Proof.
  unfold search.
  set (w0 := set_nextPage None (set_products [] w)).
  destruct (fetchProducts_starts w w0 term) as [_ _ _ _ H5]; [now split|].
  split.
  - subst w0. fields.
  - apply (freshUrls_search w _ _ H5).
Qed.

Lemma urlsOf_fetchedFor term : urlsOf term = fetchedFor term.
Proof.
  unfold urlsOf, fetchedFor, searchUrl, encodeURIComponent.
  destruct term; [reflexivity|].
  destruct (hasLoneSurrogate _); reflexivity.
Qed.

(** What the closure of the timer does besides issuing the fetch. *)
Lemma search_starts (w : World) term :
  generation (search term w) = S (generation w)
  /\ (urlsOf term = [] ->
      loading (search term w) = false /\ issued (search term w) = issued w).
Proof.
  unfold search, generation.
  set (w0 := set_nextPage None (set_products [] w)).
  destruct (fetchProducts_starts w w0 term) as [_ _ H3 _ H5]; [now split|].
  split; [exact H3|]. intro E. unfold urlsOf in E.
  destruct (searchUrl term) eqn:U; [discriminate|]. split.
  - unfold fetchProducts. rewrite U. now autorewrite with frame.
  - unfold searchRequest in H5. rewrite U in H5.
    now rewrite H5, app_nil_r.
Qed.

Lemma step_fire (w : World) tm :
  findTimer (tid tm) w = Some tm ->
  due tm <= now w ->
  step w (TimerFires (tid tm)) = search (arg tm) (clearTimeout (tid tm) w).
Proof.
  intros F D. cbn [step]. rewrite F.
  apply Nat.leb_le in D. now rewrite D.
Qed.

Lemma timersInv_init : timersInv init.
Proof. intros t []. Qed.

Lemma timersInv_handleSearch (w : World) term :
  timersInv w -> timersInv (handleSearch term w).
Proof.
  intro I. destruct (handleSearch_arms w term I) as (Ht & Hd & _).
  intros t Hin. rewrite Ht in Hin. destruct Hin as [<-|[]].
  rewrite Hd. cbn. split; [reflexivity | discriminate].
Qed.

Lemma timersInv_withDom (f : Dom -> Dom) (w : World) :
  timersInv w -> timersInv (withDom f w).
Proof. unfold timersInv. now autorewrite with frame. Qed.

Lemma timersInv_step (w : World) e : timersInv w -> timersInv (step w e).
Proof.
  intro I. destruct (quiet e) eqn:Q.
  - destruct (step_quiet w e Q) as [(Ht & Hd & _) | (t & _ & _ & Ht & Hd & _)];
      intros x Hx; rewrite Ht in Hx; rewrite Hd.
    + now apply I.
    + apply filter_In in Hx. now apply I.
  - destruct e; try discriminate; cbn [step].
    + intros x Hx. unfold connectedCallback, fetchProducts, fetch in *.
      destruct (abortController (render w)); revert Hx; fields; apply I.
    + destruct (shadow w); [|exact I].
      now apply timersInv_handleSearch, timersInv_withDom.
    + destruct (shadow w); [|exact I].
      now apply timersInv_handleSearch, timersInv_withDom.
Qed.

Lemma timersInv_run evs : forall w : World,
  timersInv w -> timersInv (run w evs).
Proof.
  induction evs as [|e evs IH]; intros w I; [exact I|].
  apply IH, timersInv_step, I.
Qed.

Lemma reachable_timersInv (w : World) : reachable w -> timersInv w.
Proof. intros [evs ->]. apply timersInv_run, timersInv_init. Qed.

(** While the delay of the only armed timer has not elapsed, quiet events
    neither fire it nor start a search. *)
Lemma quiet_run_waiting evs : forall (w : World) tm,
  timers w = [tm] ->
  Forall (fun e => quiet e = true) evs ->
  now w + elapsed evs < due tm ->
  timers (run w evs) = [tm]
  /\ debounceTimer (run w evs) = debounceTimer w
  /\ freshUrls (run w evs) = freshUrls w
  /\ now (run w evs) = now w + elapsed evs.
Proof.
  induction evs as [|e evs IH]; intros w tm Ht Hq Hd.
  - cbn. repeat apply conj; auto.
  - change (elapsed (e :: evs)) with (elapse e + elapsed evs) in *.
    change (run w (e :: evs)) with (run (step w e) evs).
    inversion Hq as [|? ? Qe Qr]; subst.
    destruct (step_quiet w e Qe)
      as [(H1 & H2 & H3 & H4) | (t & Hin & Hdue & _)].
    + destruct (IH (step w e) tm) as (J1 & J2 & J3 & J4);
        [congruence | assumption | lia |].
      repeat apply conj; try congruence. lia.
    + rewrite Ht in Hin. destruct Hin as [<-|[]]. lia.
Qed.

Lemma quiet_run_idle evs : forall w : World,
  timers w = [] ->
  Forall (fun e => quiet e = true) evs ->
  timers (run w evs) = [] /\ freshUrls (run w evs) = freshUrls w.
Proof.
  induction evs as [|e evs IH]; intros w Ht Hq; [cbn; auto|].
  change (run w (e :: evs)) with (run (step w e) evs).
  inversion Hq as [|? ? Qe Qr]; subst.
  destruct (step_quiet w e Qe)
    as [(H1 & H2 & H3 & H4) | (t & Hin & _)].
  - destruct (IH (step w e)) as (J1 & J2); [congruence | assumption |].
    split; congruence.
  - rewrite Ht in Hin. destruct Hin.
Qed.

(** With one timer armed, quiet events start at most one search, and it is
    the search for the timer's term. *)
Lemma quiet_run_once evs : forall (w : World) tm,
  timers w = [tm] ->
  Forall (fun e => quiet e = true) evs ->
  (timers (run w evs) = [tm] /\ freshUrls (run w evs) = freshUrls w)
  \/ (timers (run w evs) = []
      /\ freshUrls (run w evs) = freshUrls w ++ urlsOf (arg tm)).
Proof.
  induction evs as [|e evs IH]; intros w tm Ht Hq; [cbn; auto|].
  change (run w (e :: evs)) with (run (step w e) evs).
  inversion Hq as [|? ? Qe Qr]; subst.
  destruct (step_quiet w e Qe)
    as [(H1 & H2 & H3 & H4) | (t & Hin & _ & H1 & _ & H3 & _)].
  - destruct (IH (step w e) tm) as [(J1 & J2) | (J1 & J2)];
      [congruence | assumption | left | right]; split; congruence.
  - rewrite Ht in Hin. destruct Hin as [<-|[]].
    rewrite Ht in H1. cbn in H1. rewrite Nat.eqb_refl in H1. cbn in H1.
    destruct (quiet_run_idle evs (step w e) H1 Qr) as (J1 & J2).
    right. split; congruence.
Qed.

(** Once the delay has elapsed the armed timer fires, and starts the
    search for its term. *)
Lemma armed_timer_fires (w : World) tm d :
  timers w = [tm] ->
  due tm <= now w + d ->
  let w' := run w [Elapse d; TimerFires (tid tm)] in
  timers w' = []
  /\ freshUrls w' = freshUrls w ++ urlsOf (arg tm)
  /\ generation w' = S (generation w)
  /\ (urlsOf (arg tm) = []
      -> fetchedFor (arg tm) = []
         /\ issued w' = issued w /\ loading w' = false).
Proof.
  intros Ht Hd. cbn [run fold_left].
  set (w0 := step w (Elapse d)).
  assert (F : findTimer (tid tm) w0 = Some tm).
  { unfold findTimer. change (timers w0) with (timers w). rewrite Ht. cbn.
    now rewrite Nat.eqb_refl. }
  rewrite (step_fire w0 tm F) by (cbn; lia).
  destruct (search_effect (clearTimeout (tid tm) w0) (arg tm)) as (H1 & H2).
  destruct (search_starts (clearTimeout (tid tm) w0) (arg tm)) as (H3 & H4).
  rewrite H1, H2, H3. repeat apply conj; try reflexivity.
  - cbn. rewrite Ht. cbn. now rewrite Nat.eqb_refl.
  - intro E. destruct (H4 E) as (H5 & H6).
    rewrite H5, H6, <- urlsOf_fetchedFor. auto.
Qed.

Lemma last_cons {A} (a d : A) l : last (a :: l) d = last l a.
Proof.
  revert a d. induction l as [|b l IH]; intros a d; [reflexivity|].
  change (last (a :: b :: l) d) with (last (b :: l) d).
  now rewrite (IH b d), (IH b a).
Qed.

Lemma burst_armed b : forall (w : World) id term,
  timers w = [{| tid := id; due := now w + 300; arg := term |}] ->
  debounceTimer w = Some id -> id <> 0 ->
  Forall rapid b ->
  freshUrls (burst w b) = freshUrls w
  /\ exists id',
       timers (burst w b)
       = [{| tid := id'; due := now (burst w b) + 300;
             arg := last (map snd b) term |}].
Proof.
  induction b as [|[evs t] b IH]; intros w id term Ht Hd Hid Hb.
  - cbn. split; [reflexivity | now exists id].
  - inversion Hb as [|? ? [Hq He] Hr]; subst. cbn [fst] in *.
    destruct (quiet_run_waiting evs w _ Ht Hq) as (J1 & J2 & J3 & J4);
      [cbn; lia|].
    assert (I : timersInv (run w evs)).
    { intros x Hx. rewrite J1 in Hx. destruct Hx as [<-|[]].
      rewrite J2, Hd. cbn. auto. }
    destruct (handleSearch_arms (run w evs) t I) as (K1 & K2 & K3 & K4).
    cbn zeta in *.
    destruct (IH (handleSearch t (run w evs)) (S (timersCreated (run w evs))) t)
      as (L1 & id' & L2); try assumption.
    + now rewrite K1, K3.
    + discriminate.
    + cbn [burst map snd]. rewrite last_cons. split.
      * rewrite L1, (freshUrls_same _ _ K4). exact J3.
      * now exists id'.
Qed.

(** C9, as the code has it.  A first call of [handleSearch] followed by
    any number of further calls, each less than 300 ms after the previous
    one, with any quiet events in between: no search starts during the
    burst and exactly one timer is left armed, for the last term; whatever
    quiet events follow, at most one fetch is issued; and when the timer
    fires after its 300 ms exactly one search starts, for the last term:
    it fetches the catalogue URL for the empty term and the URL with the
    encoded term otherwise, unless the term holds a lone surrogate, in
    which case nothing is fetched and [loading] is lowered at once. *)
Theorem debounce_single_fetch (w : World) t1 b :
  timersInv w ->
  Forall rapid b ->
  let tn := last (map snd b) t1 in
  let w1 := burst (handleSearch t1 w) b in
  freshUrls w1 = freshUrls w
  /\ exists id,
       timers w1 = [{| tid := id; due := now w1 + 300; arg := tn |}]
       /\ (forall evs,
             Forall (fun e => quiet e = true) evs ->
             (timers (run w1 evs) = timers w1
              /\ freshUrls (run w1 evs) = freshUrls w)
             \/ (timers (run w1 evs) = []
                 /\ freshUrls (run w1 evs) = freshUrls w ++ fetchedFor tn))
       /\ (forall d,
             300 <= d ->
             let w2 := run w1 [Elapse d; TimerFires id] in
             timers w2 = []
             /\ freshUrls w2 = freshUrls w ++ fetchedFor tn
             /\ generation w2 = S (generation w1)
             /\ (hasLoneSurrogate tn = true ->
                 fetchedFor tn = []
                 /\ issued w2 = issued w1
                 /\ loading w2 = false)).
Proof.
  intros I Hb tn w1.
  destruct (handleSearch_arms w t1 I) as (K1 & K2 & K3 & K4).
  cbn zeta in *.
  destruct (burst_armed b (handleSearch t1 w) (S (timersCreated w)) t1)
    as (L1 & id & L2); try assumption; [now rewrite K1, K3 | discriminate|].
  fold w1 in L1, L2. fold tn in L2.
  assert (F : freshUrls w1 = freshUrls w)
    by now rewrite L1, (freshUrls_same _ _ K4).
  split; [exact F|]. exists id. split; [exact L2|]. split.
  - intros evs Hq. rewrite <- urlsOf_fetchedFor.
    destruct (quiet_run_once evs w1 _ L2 Hq) as [(J1 & J2) | (J1 & J2)].
    + left. split; congruence.
    + right. split; [exact J1|]. now rewrite J2, F.
  - intros d Hd. rewrite <- urlsOf_fetchedFor.
    destruct (armed_timer_fires w1 _ d L2)
      as (J1 & J2 & J3 & J4); [cbn; lia|].
    cbn [tid arg] in J1, J2, J3, J4.
    repeat apply conj; [exact J1 | now rewrite J2, F | exact J3 |].
    intro S. rewrite urlsOf_fetchedFor. apply J4.
    rewrite urlsOf_fetchedFor. unfold fetchedFor.
    destruct tn; [discriminate | now rewrite S].
Qed.

(** ** Worked executions *)

Lemma continuation_success_appends_witness :
  products (step scrolling (Response 2 (Ok200 (page [pump] None))))
  = [valve; pump]
  /\ nextPage (step scrolling (Response 2 (Ok200 (page [pump] None))))
     = None.
Proof.
  destruct (continuation_success_appends scrolling 2
              {| rid := 2; url := "page2url";
                 awaiter := InFetchMoreProducts |}
              (page [pump] None) eq_refl eq_refl) as (Hp & Hn & _).
  split; [exact Hp | exact Hn].
Defined.

Lemma continuation_failure_keeps_items_witness :
  products (step scrolling (Response 2 BadJson)) = [valve]
  /\ nextPage (step scrolling (Response 2 BadJson)) = Some "page2url"
  /\ loading (step scrolling (Response 2 BadJson)) = false.
Proof.
  destruct (continuation_failure_keeps_items scrolling 2
              {| rid := 2; url := "page2url";
                 awaiter := InFetchMoreProducts |}
              BadJson eq_refl eq_refl I) as (H & _).
  exact H.
Defined.

Lemma superseded_search_response_ignored_witness :
  visible
    (step (run (step typed (TimerFires 1)) [Elapse 40])
       (Response 1 (Ok200 (page [pump] None))))
  = visible (run (step typed (TimerFires 1)) [Elapse 40]).
Proof.
  apply (superseded_search_response_ignored typed
           {| rid := 1; url := baseUrl; awaiter := InFetchProducts 1 |}
           1 (TimerFires 1) [Elapse 40] (Ok200 (page [pump] None))).
  - exists [Connected; InputEv "valve"; Elapse 300]. reflexivity.
  - left. reflexivity.
  - reflexivity.
  - vm_compute. reflexivity.
Defined.

Lemma observer_after_render_witness :
  liveObservers
    (step attachedOnce
       (Response 1 (Ok200 (page [valve] (Some "page2url")))))
  = [(1, 1)]
  /\ attached 1
       (step attachedOnce
          (Response 1 (Ok200 (page [valve] (Some "page2url")))))
     = true.
Proof.
  assert (R : reachable attachedOnce) by (exists [Connected]; reflexivity).
  destruct (observer_after_render attachedOnce R) as (_ & H & _).
  specialize (H 1 {| rid := 1; url := baseUrl; awaiter := InFetchProducts 1 |}
                (Ok200 (page [valve] (Some "page2url")))).
  vm_compute in H. vm_compute.
  destruct (H eq_refl eq_refl) as (H1 & _ & H3).
  split; [exact H1 | exact H3].
Defined.

Lemma debounce_single_fetch_witness :
  freshUrls (burst (handleSearch "v" attachedOnce) typing) = [baseUrl]
  /\ exists id,
       timers (burst (handleSearch "v" attachedOnce) typing)
       = [{| tid := id; due := 520; arg := "valve" |}]
       /\ freshUrls
            (run (burst (handleSearch "v" attachedOnce) typing)
               [Elapse 300; TimerFires id])
          = [baseUrl;
             valveUrl].
Proof.
  assert (R : timersInv attachedOnce)
    by (apply reachable_timersInv; exists [Connected]; reflexivity).
  assert (T : Forall rapid typing)
    by (repeat constructor; cbn; lia).
  destruct (debounce_single_fetch attachedOnce "v" typing R T)
    as (H1 & id & H2 & _ & H4).
  split; [exact H1|]. exists id. split; [exact H2|].
  destruct (H4 300 (le_n 300)) as (_ & H5 & _). exact H5.
Defined.

(** C9, counterexample.  Three searches less than 300 ms apart, the last
    for a term that holds a lone surrogate.  One timer is left, for that
    term.  When it fires, [encodeURIComponent] throws inside the [try] of
    [fetchProducts]: the initial fetch has been aborted, a new controller
    is in place, no timer is left, [loading] is false, and the only
    request ever issued is the one of [connectedCallback].  No fetch is
    issued for the burst. *)
Lemma surrogate_burst_fetches_nothing :
  timers (burst (handleSearch "v" attachedOnce) typingSurrogate)
  = [{| tid := 3; due := 520; arg := loneSurrogate |}]
  /\ fetchedFor loneSurrogate = []
  /\ map url
       (issued (run (burst (handleSearch "v" attachedOnce) typingSurrogate)
                  [Elapse 300; TimerFires 3]))
     = [baseUrl]
  /\ timers (run (burst (handleSearch "v" attachedOnce) typingSurrogate)
               [Elapse 300; TimerFires 3])
     = []
  /\ generation (run (burst (handleSearch "v" attachedOnce) typingSurrogate)
                   [Elapse 300; TimerFires 3])
     = 2
  /\ aborted (run (burst (handleSearch "v" attachedOnce) typingSurrogate)
                [Elapse 300; TimerFires 3])
     = [1]
  /\ loading (run (burst (handleSearch "v" attachedOnce) typingSurrogate)
                [Elapse 300; TimerFires 3])
     = false.
Proof. vm_compute. repeat split. Qed.

(** *** C1: a continuation answered after a new search has started *)

(** C1 fails on the code.  Page 1 of the unfiltered list is shown and the
    continuation for page 2 is pending when the user searches "hose".  The
    search empties the list and issues request 3; then the answer to the
    old continuation arrives and its items are put in the list of the new
    search, with [loading] false, while request 3 is still pending. *)
Theorem stale_continuation_is_merged :
  products newSearchWhileScrolling = []
  /\ abortController newSearchWhileScrolling = Some 2
  /\ inflight newSearchWhileScrolling
     = [{| rid := 2; url := "page2url"; awaiter := InFetchMoreProducts |};
        {| rid := 3; url := hoseUrl;
           awaiter := InFetchProducts 2 |}]
  /\ let w := step newSearchWhileScrolling
                (Response 2 (Ok200 (page [pump] (Some "page3url")))) in
     products w = [pump]
     /\ nextPage w = Some "page3url"
     /\ loading w = false
     /\ inflight w
        = [{| rid := 3; url := hoseUrl;
              awaiter := InFetchProducts 2 |}].
Proof. repeat apply conj; vm_compute; reflexivity. Qed.

(** *** C3: what is still armed after a detach *)

(** [disconnectedCallback] disconnects the observer and nothing else. *)
Lemma detach_disconnects_observer (w : World) :
  obsInv w -> liveObservers (disconnectedCallback w) = [].
Proof.
  intro I. unfold disconnectedCallback.
  destruct (observer w) as [o|] eqn:Ho.
  - cbn. apply (obsInv_disconnect_current w o I Ho).
  - apply (obsInv_none w I Ho).
Qed.

Lemma detach_keeps_timers_and_requests (w : World) :
  timers (disconnectedCallback w) = timers w
  /\ inflight (disconnectedCallback w) = inflight w
  /\ aborted (disconnectedCallback w) = aborted w.
Proof. unfold disconnectedCallback. destruct (observer w); auto. Qed.

(** C3 fails on the code.  After the detach the observer is gone, but the
    debounce timer for "hose" is still armed and the fetch for "pump" is
    still pending and not aborted; the timer then fires, aborts that
    fetch and issues a new one, and the answer for "pump", had it arrived
    instead, would have been written into the list and rendered. *)
Theorem callbacks_survive_detach :
  liveObservers detached = []
  /\ timers detached = [{| tid := 2; due := 600; arg := "hose" |}]
  /\ inflight detached
     = [{| rid := 2; url := pumpUrl;
           awaiter := InFetchProducts 2 |}]
  /\ aborted detached = [1]
  /\ (let w := run detached [Elapse 300; TimerFires 2] in
      List.length (issued detached) = 2
      /\ List.length (issued w) = 3
      /\ abortController detached = Some 2
      /\ abortController w = Some 3
      /\ aborted w = [2; 1])
  /\ (let w := step detached (Response 2 (Ok200 (page [pump] None))) in
      products detached = []
      /\ products w = [pump]
      /\ visible w <> visible detached).
Proof.
  repeat apply conj; try (vm_compute; reflexivity);
    intro H; vm_compute in H; discriminate H.
Qed.

(** *** C5: renders that leave the observer alone *)

(** C5, counterexample.  The render of the last page (no cursor) leaves
    observer 1 live, on a sentinel that is no longer in the tree; and a
    render with a cursor but no items attaches nothing. *)
Lemma observer_not_detached_without_cursor :
  (nextPage lastPage = None
   /\ liveObservers lastPage = [(1, 1)]
   /\ liveObservers lastPage <> []
   /\ attached 1 lastPage = false)
  /\ (nextPage emptyPageWithCursor = Some "page2url"
      /\ liveObservers emptyPageWithCursor = []
      /\ shadow emptyPageWithCursor
         = Some {| inputValue := EmptyString; inputSuggested := true;
                   listContainer := [NoResultsEl] |}).
Proof.
  repeat apply conj; try (vm_compute; reflexivity);
    intro H; vm_compute in H; discriminate H.
Qed.

(** * Further properties of the methods *)

(** ** The loading indicator *)

Lemma countLoading_app l l' :
  countLoading (l ++ l') = countLoading l + countLoading l'.
Proof. unfold countLoading. now rewrite filter_app, length_app. Qed.

Lemma countLoading_items ps : forall k,
  countLoading (suggestionItems k ps) = 0.
Proof. induction ps as [|p ps IH]; intro k; [reflexivity | apply IH]. Qed.

Lemma countLoading_none l :
  existsb isLoadingEl l = false -> countLoading l = 0.
Proof.
  unfold countLoading. induction l as [|n l IH]; cbn; [reflexivity|].
  destruct (isLoadingEl n); cbn; [discriminate | exact IH].
Qed.

Lemma countLoading_some l :
  existsb isLoadingEl l = true -> 1 <= countLoading l.
Proof.
  unfold countLoading. induction l as [|n l IH]; cbn; [discriminate|].
  destruct (isLoadingEl n); cbn; [lia | exact IH].
Qed.

Lemma countLoading_removeFirst l :
  countLoading (removeFirstLoading l) = pred (countLoading l).
Proof.
  unfold countLoading. induction l as [|n l IH]; [reflexivity|].
  destruct n; cbn; try exact IH. reflexivity.
Qed.

Lemma countLoading_rendered (w : World) :
  countLoading (renderedList w) = if loading w then 1 else 0.
Proof.
  unfold renderedList. rewrite countLoading_app.
  destruct (products w) as [|p ps] eqn:Hp.
  - destruct (loading w); reflexivity.
  - rewrite <- Hp. rewrite countLoading_app, countLoading_items.
    destruct (truthy (nextPage w)), (loading w); reflexivity.
Qed.

Lemma indicatorInv_updateList (w : World) : indicatorInv (updateList w).
Proof.
  intros d' Hd'. destruct (shadow w) as [d|] eqn:Hd.
  - destruct (updateList_shadow w d Hd) as (d2 & Hs & Hl).
    rewrite Hs in Hd'. injection Hd' as <-.
    rewrite Hl, updateList_loading. apply countLoading_rendered.
  - unfold updateList in Hd'. rewrite Hd in Hd'. congruence.
Qed.

Lemma updateLoadingState_tree (w : World) d :
  shadow w = Some d ->
  shadow (updateLoadingState w)
  = Some (setList (if loading w then withIndicator (listContainer d)
                   else if existsb isLoadingEl (listContainer d)
                        then removeFirstLoading (listContainer d)
                        else listContainer d) d).
Proof.
  intro Hd. unfold updateLoadingState, withIndicator, appendChild.
  rewrite Hd. destruct d as [v sg l]. cbn.
  destruct (loading w), (existsb isLoadingEl l); cbn; rewrite ?Hd;
    reflexivity.
Qed.

Lemma indicatorInv_updateLoadingState (w : World) :
  (forall d, shadow w = Some d -> countLoading (listContainer d) <= 1) ->
  indicatorInv (updateLoadingState w).
Proof.
  intros H d' Hd'. destruct (shadow w) as [d|] eqn:Hd.
  - rewrite (updateLoadingState_tree w d Hd) in Hd'. injection Hd' as <-.
    rewrite updateLoadingState_loading. specialize (H d eq_refl).
    cbn [setList listContainer].
    unfold withIndicator.
    destruct (loading w), (existsb isLoadingEl (listContainer d)) eqn:E.
    + apply countLoading_some in E. lia.
    + rewrite countLoading_app, (countLoading_none _ E). reflexivity.
    + rewrite countLoading_removeFirst. lia.
    + apply (countLoading_none _ E).
  - unfold updateLoadingState in Hd'. rewrite Hd in Hd'. congruence.
Qed.

Lemma indicatorInv_le (w : World) :
  indicatorInv w ->
  forall d, shadow w = Some d -> countLoading (listContainer d) <= 1.
Proof. intros I d Hd. rewrite (I d Hd). destruct (loading w); lia. Qed.

Lemma indicatorInv_same (w w' : World) :
  shadow w' = shadow w -> loading w' = loading w ->
  indicatorInv w -> indicatorInv w'.
Proof. intros Hs Hl I d. rewrite Hs, Hl. apply I. Qed.

Lemma indicatorInv_fetchProducts (w : World) term :
  (forall d, shadow w = Some d -> countLoading (listContainer d) <= 1) ->
  indicatorInv (fetchProducts term w).
Proof.
  intro H. unfold fetchProducts.
  destruct (searchUrl term); [|apply indicatorInv_updateList].
  unfold fetch.
  eapply indicatorInv_same;
    [| | apply indicatorInv_updateLoadingState]; try reflexivity.
  destruct (abortController w); exact H.
Qed.

Lemma indicatorInv_typed (w : World) value term :
  indicatorInv w ->
  indicatorInv (handleSearch term (withDom (setValue value) w)).
Proof.
  intros I d Hd.
  assert (L : loading (handleSearch term (withDom (setValue value) w))
              = loading w)
    by (unfold handleSearch;
        destruct (debounceTimer _) as [[|]|]; fields).
  assert (S : shadow (handleSearch term (withDom (setValue value) w))
              = shadow (withDom (setValue value) w))
    by (unfold handleSearch;
        destruct (debounceTimer _) as [[|]|]; reflexivity).
  rewrite L. rewrite S in Hd. unfold withDom in Hd.
  destruct (shadow w) as [d0|] eqn:E; [|congruence].
  cbn in Hd. injection Hd as <-. apply (I d0 E).
Qed.

Lemma indicatorInv_fetchMoreProducts (w : World) :
  indicatorInv w -> indicatorInv (fetchMoreProducts w).
Proof.
  intro I. unfold fetchMoreProducts.
  destruct (negb (truthy (nextPage w)) || loading w); [exact I|].
  assert (J : indicatorInv (updateLoadingState (set_loading true w)))
    by (apply indicatorInv_updateLoadingState, (indicatorInv_le w I)).
  autorewrite with frame. cbn. destruct (nextPage w); [|exact J].
  revert J. apply indicatorInv_same; reflexivity.
Qed.

Lemma indicatorInv_step (w : World) e :
  indicatorInv w -> indicatorInv (step w e).
Proof.
  intro I. destruct e; cbn [step].
  - apply indicatorInv_fetchProducts. cbn. intros d [= <-]. cbn. lia.
  - revert I. apply indicatorInv_same; unfold disconnectedCallback;
      destruct (observer w); reflexivity.
  - destruct (shadow w) eqn:E; [|exact I].
    now apply indicatorInv_typed.
  - destruct (shadow w) eqn:E; [|exact I].
    now apply indicatorInv_typed.
  - revert I. apply indicatorInv_same; reflexivity.
  - destruct (findTimer id w); [|exact I].
    destruct (due t <=? now w); [|exact I].
    apply indicatorInv_fetchProducts. apply (indicatorInv_le w I).
  - destruct (findRequest rid0 w); [|exact I].
    assert (J : indicatorInv (dropRequest rid0 w))
      by (revert I; apply indicatorInv_same; reflexivity).
    destruct (awaiter r);
      destruct (settle r o (dropRequest rid0 w)); cbn;
      try apply indicatorInv_updateList; exact J.
  - destruct (findObserver observer0 w) as [[? ?]|]; [|exact I].
    unfold onIntersection. destruct (_ && _); [|exact I].
    now apply indicatorInv_fetchMoreProducts.
Qed.

Lemma indicatorInv_run evs : forall w : World,
  indicatorInv w -> indicatorInv (run w evs).
Proof.
  induction evs as [|e evs IH]; intros w I; [exact I|].
  apply IH, indicatorInv_step, I.
Qed.

(** X1. In every reachable state with a rendered tree, the list holds the
    loading indicator exactly when [loading] is true, and never holds it
    twice. *)
Theorem loading_indicator_matches_flag (w : World) d :
  reachable w ->
  shadow w = Some d ->
  countLoading (listContainer d) = if loading w then 1 else 0.
Proof.
  intros [evs ->] Hd. apply (indicatorInv_run evs init); [|exact Hd].
  intros d0 H. discriminate H.
Qed.

Lemma loading_indicator_matches_flag_witness :
  countLoading [LoadingEl] = 1.
Proof.
  apply (loading_indicator_matches_flag attachedOnce
           {| inputValue := EmptyString; inputSuggested := false;
              listContainer := [LoadingEl] |}).
  - exists [Connected]. reflexivity.
  - vm_compute. reflexivity.
Defined.

(** ** The tree after a fetch has settled *)

Lemma updateList_idle (w : World) d :
  shadow w = Some d ->
  loading w = false ->
  shadow (updateList w) = Some (idleTree w).
Proof.
  open_world w. intros -> ->.
  unfold updateList, idleTree, withDom, setupIntersectionObserver.
  destruct products0 as [|p ps]; cbn; [reflexivity|].
  destruct (truthy nextPage0); cbn; [|now rewrite app_nil_r].
  destruct observer0; reflexivity.
Qed.

(** The state in which a handler that renders calls [updateList]. *)
Lemma settled_render (w : World) id r o :
  findRequest id w = Some r ->
  rendersOn r o (dropRequest id w) = true ->
  exists w0 : World,
    step w (Response id o) = updateList w0
    /\ loading w0 = false
    /\ shadow w0 = shadow w
    /\ sentinelsCreated w0 = sentinelsCreated w
    /\ inflight w0 = filter (fun x => negb (rid x =? id)) (inflight w)
    /\ issued w0 = issued w
    /\ (isFailure o -> products w0 = products w /\ nextPage w0 = nextPage w).
Proof.
  intros F Hr. cbn [step]. rewrite F. unfold rendersOn in Hr.
  destruct (awaiter r) eqn:Ha.
  - apply negb_true_iff in Hr.
    destruct (settle r o (dropRequest id w)) eqn:S; try discriminate;
      cbn; eexists; (split; [reflexivity|]); repeat apply conj;
      try reflexivity; intro Ho;
      unfold settle in S; destruct (signal r);
      try destruct (existsb _ _); subst; try discriminate; try contradiction;
      auto.
  - rewrite (settle_continuation r o _ Ha).
    destruct o; cbn; eexists; (split; [reflexivity|]);
      repeat apply conj; try reflexivity; intro Ho;
      try contradiction; auto.
Qed.

(** X2. Whenever a settled fetch leads to a render in a reachable state,
    [loading] is false afterwards, the input carries the class
    "suggested", and the list is rebuilt from the state: the single
    "no results" entry when there are no items, otherwise one entry per
    item, in order, followed by a new sentinel when the cursor is a
    non-empty string; it holds no loading indicator and nothing else. *)
Theorem settled_fetch_rebuilds_list (w : World) id r o :
  reachable w ->
  findRequest id w = Some r ->
  rendersOn r o (dropRequest id w) = true ->
  let w' := step w (Response id o) in
  loading w' = false
  /\ shadow w'
     = Some {| inputValue :=
                 match shadow w with
                 | Some d => inputValue d
                 | None => EmptyString
                 end;
               inputSuggested := true;
               listContainer :=
                 match products w' with
                 | [] => [NoResultsEl]
                 | _ :: _ =>
                     suggestionItems 0 (products w')
                     ++ (if truthy (nextPage w')
                         then [SentinelEl (S (sentinelsCreated w))]
                         else [])
                 end |}.
Proof.
  intros R F Hr.
  destruct (pending_mounted w id r (reachable_domInv w R) F) as (d & Hd).
  destruct (settled_render w id r o F Hr)
    as (w0 & E & Hl & Hs & Hc & _).
  cbn zeta. rewrite E. autorewrite with frame. split; [exact Hl|].
  rewrite (updateList_idle w0 d) by congruence.
  unfold idleTree. now rewrite Hc, Hs.
Qed.

Lemma settled_fetch_rebuilds_list_witness :
  shadow (step attachedOnce (Response 1 (Ok200 (page [] None))))
  = Some {| inputValue := EmptyString; inputSuggested := true;
            listContainer := [NoResultsEl] |}.
Proof.
  assert (R : reachable attachedOnce) by (exists [Connected]; reflexivity).
  pose proof (settled_fetch_rebuilds_list attachedOnce 1
                {| rid := 1; url := baseUrl; awaiter := InFetchProducts 1 |}
                (Ok200 (page [] None)) R) as H.
  vm_compute in H. vm_compute. exact (proj2 (H eq_refl eq_refl)).
Defined.

(** ** A fresh search that succeeds *)

(** X3. When the pending fresh-search request of the current controller
    returns a parsed page, [items] are replaced by the results of the page
    (whatever they were), the cursor is the page's [next], [loading] is
    false and the request is no longer pending. *)
Theorem fresh_search_success_replaces_items (w : World) id r c data :
  reachable w ->
  findRequest id w = Some r ->
  awaiter r = InFetchProducts c ->
  abortController w = Some c ->
  let w' := step w (Response id (Ok200 data)) in
  products w' = results data
  /\ nextPage w' = next data
  /\ loading w' = false
  /\ findRequest id w' = None.
Proof.
  intros R F Ha Hc. cbn [step]. rewrite F, Ha.
  rewrite (settle_current w r c _ id (reachable_netInv w R) Ha Hc).
  cbn. autorewrite with frame. cbn. repeat apply conj; try reflexivity.
  unfold findRequest. autorewrite with frame. cbn.
  destruct (find _ _) as [x|] eqn:E; [|reflexivity].
  apply find_some in E. destruct E as [E1 E2].
  apply filter_In in E1. destruct E1 as [_ E1].
  rewrite E2 in E1. discriminate.
Qed.

Lemma fresh_search_success_replaces_items_witness :
  products (step reattached (Response 2 (Ok200 (page [pump] None))))
  = [pump].
Proof.
  assert (R : reachable reattached) by (eexists; reflexivity).
  pose proof (fresh_search_success_replaces_items reattached 2
                {| rid := 2; url := baseUrl; awaiter := InFetchProducts 2 |}
                2 (page [pump] None) R) as H.
  vm_compute in H. vm_compute. exact (proj1 (H eq_refl eq_refl eq_refl)).
Defined.

(** ** Pending fresh searches *)

Lemma oneRequestPerController_effect (w w' : World) :
  netInv w -> oneRequestPerController w -> NetEffect w w' ->
  oneRequestPerController w'.
Proof.
  intros I U [[_ _ _ H4 _] | id _ _ _ H4 _ | u _ _ _ H4 _
             | term [_ _ _ H4 _]];
    intros r1 r2 c H1 H2 A1 A2; rewrite H4 in H1, H2.
  - now apply (U r1 r2 c).
  - apply filter_In in H1, H2. now apply (U r1 r2 c).
  - apply in_app_iff in H1, H2.
    destruct H1 as [H1|[<-|[]]]; [|discriminate].
    destruct H2 as [H2|[<-|[]]]; [|discriminate].
    now apply (U r1 r2 c).
  - apply in_app_iff in H1, H2.
    destruct H1 as [H1|H1], H2 as [H2|H2].
    + now apply (U r1 r2 c).
    + destruct (searchRequest_In w term r2 H2) as [_ E].
      rewrite E in A2. injection A2 as <-.
      destruct (superseded_aborted w I r1 _ H1 A1) as [Hle _]. lia.
    + destruct (searchRequest_In w term r1 H1) as [_ E].
      rewrite E in A1. injection A1 as <-.
      destruct (superseded_aborted w I r2 _ H2 A2) as [Hle _]. lia.
    + unfold searchRequest in H1, H2.
      destruct (searchUrl term); [|destruct H1].
      destruct H1 as [<-|[]], H2 as [<-|[]]. reflexivity.
Qed.

Lemma oneRequestPerController_run evs : forall w : World,
  netInv w -> oneRequestPerController w ->
  oneRequestPerController (run w evs).
Proof.
  induction evs as [|e evs IH]; intros w I U; [exact U|].
  apply IH; [now apply netInv_step|].
  exact (oneRequestPerController_effect w _ I U (step_net w e)).
Qed.

(** X4. In every reachable state the current controller has not been
    aborted, and at most one pending fresh-search request has a controller
    that is not aborted: any two such requests are the same request, the
    one of the current controller. *)
Theorem at_most_one_live_fresh_search (w : World) :
  reachable w ->
  (forall c, abortController w = Some c -> ~ In c (aborted w))
  /\ forall r1 r2 c1 c2,
       In r1 (inflight w) -> In r2 (inflight w) ->
       awaiter r1 = InFetchProducts c1 -> awaiter r2 = InFetchProducts c2 ->
       ~ In c1 (aborted w) -> ~ In c2 (aborted w) ->
       r1 = r2 /\ abortController w = Some c1.
Proof.
  intro R. pose proof (reachable_netInv w R) as I. split.
  - intros c Hc. apply (current_not_aborted w I c Hc).
  - intros r1 r2 c1 c2 H1 H2 A1 A2 N1 N2.
    destruct (superseded_aborted w I r1 c1 H1 A1) as [_ [E1|E1]];
      [|contradiction].
    destruct (superseded_aborted w I r2 c2 H2 A2) as [_ [E2|E2]];
      [|contradiction].
    split; [|exact E1].
    assert (c2 = c1) by congruence. subst c2.
    destruct R as [evs ->].
    apply (oneRequestPerController_run evs init netInv_init) with (c := c1);
      try assumption.
    intros x y c [].
Qed.

Lemma at_most_one_live_fresh_search_witness :
  ~ In 2 (aborted reattached).
Proof.
  assert (R : reachable reattached) by (eexists; reflexivity).
  destruct (at_most_one_live_fresh_search reattached R) as [H _].
  apply (H 2). vm_compute. reflexivity.
Defined.

(** ** The debounce timer, continued *)

Lemma one_timer_step (w : World) e :
  timersInv w -> List.length (timers w) <= 1 ->
  List.length (timers (step w e)) <= 1.
Proof.
  intros I L. destruct (quiet e) eqn:Q.
  - destruct (step_quiet w e Q) as [(Ht & _) | (t & _ & _ & Ht & _)];
      rewrite Ht; [exact L|].
    etransitivity; [apply filter_length_le | exact L].
  - destruct e; try discriminate; cbn [step].
    + unfold connectedCallback, fetchProducts, fetch.
      destruct (abortController (render w)); fields; exact L.
    + destruct (shadow w); [|exact L].
      destruct (handleSearch_arms (withDom (setValue value) w) value
                  (timersInv_withDom _ w I)) as (-> & _).
      cbn. lia.
    + destruct (shadow w); [|exact L].
      destruct (handleSearch_arms (withDom (setValue EmptyString) w)
                  EmptyString (timersInv_withDom _ w I)) as (-> & _).
      cbn. lia.
Qed.

Lemma one_timer_run evs : forall w : World,
  timersInv w -> List.length (timers w) <= 1 ->
  List.length (timers (run w evs)) <= 1.
Proof.
  induction evs as [|e evs IH]; intros w I L; [exact L|].
  apply IH; [now apply timersInv_step | now apply one_timer_step].
Qed.

(** X5. In every reachable state at most one timer is armed, and it is the
    one whose identifier is held in [debounceTimer]. *)
Theorem at_most_one_timer_armed (w : World) :
  reachable w ->
  List.length (timers w) <= 1
  /\ forall t, In t (timers w) -> debounceTimer w = Some (tid t).
Proof.
  intro R. split.
  - destruct R as [evs ->].
    apply one_timer_run; [apply timersInv_init | cbn; lia].
  - intros t Ht. apply (reachable_timersInv w R t Ht).
Qed.

Lemma at_most_one_timer_armed_witness :
  List.length (timers detached) <= 1.
Proof.
  apply (at_most_one_timer_armed detached). eexists. reflexivity.
Defined.

(** X6. On a rendered element in a reachable state, an input event only
    arms one timer, for the value the input now holds, 300 ms from now
    (an earlier timer is cleared): [items], the cursor, [loading], the
    list and the class of the input stay as they are, and neither the
    requests nor the controllers are touched.  A click on the clear button
    empties the input and is otherwise an input event for the empty
    term. *)
Theorem typing_only_arms_the_timer (w : World) value d :
  reachable w ->
  shadow w = Some d ->
  let w' := step w (InputEv value) in
  shadow w' = Some (setValue value d)
  /\ products w' = products w
  /\ nextPage w' = nextPage w
  /\ loading w' = loading w
  /\ issued w' = issued w
  /\ inflight w' = inflight w
  /\ aborted w' = aborted w
  /\ abortController w' = abortController w
  /\ timers w'
     = [{| tid := S (timersCreated w); due := now w + 300; arg := value |}]
  /\ step w ClearClick = step w (InputEv EmptyString)
  /\ shadow (step w ClearClick) = Some (setValue EmptyString d).
Proof.
  intros R Hs.
  assert (T : forall v,
             let w0 := withDom (setValue v) w in
             shadow (handleSearch v w0) = Some (setValue v d)
             /\ products (handleSearch v w0) = products w
             /\ nextPage (handleSearch v w0) = nextPage w
             /\ loading (handleSearch v w0) = loading w
             /\ timers (handleSearch v w0)
                = [{| tid := S (timersCreated w); due := now w + 300;
                      arg := v |}]).
  { intro v. cbn zeta.
    destruct (handleSearch_arms (withDom (setValue v) w) v
                (timersInv_withDom _ w (reachable_timersInv w R)))
      as (Ht & _).
    rewrite Ht. autorewrite with frame.
    unfold handleSearch, withDom. rewrite Hs.
    destruct (debounceTimer _) as [[|]|]; cbn; auto. }
  cbn [step]. rewrite Hs.
  destruct (T value) as (T1 & T2 & T3 & T4 & T5).
  destruct (T EmptyString) as (C1 & _).
  destruct (typed_net w value) as [N1 N2 _ N4 N5].
  repeat apply conj; try assumption; reflexivity.
Qed.

Lemma typing_only_arms_the_timer_witness :
  timers (step listed (InputEv "valve"))
  = [{| tid := 1; due := 300; arg := "valve" |}]
  /\ shadow (step listed (InputEv "valve"))
     = Some {| inputValue := "valve"; inputSuggested := true;
               listContainer := [suggestionItem 0 valve; SentinelEl 1] |}.
Proof.
  assert (R : reachable listed) by (eexists; reflexivity).
  pose proof (typing_only_arms_the_timer listed "valve"
                {| inputValue := EmptyString; inputSuggested := true;
                   listContainer := [suggestionItem 0 valve; SentinelEl 1] |}
                R) as H.
  vm_compute in H. vm_compute.
  destruct (H eq_refl) as (Hs & _ & _ & _ & _ & _ & _ & _ & Ht & _).
  split; [exact Ht | exact Hs].
Defined.

(** ** Starting a fresh search *)

Lemma fetchProducts_common (w : World) term :
  let w' := fetchProducts term w in
  products w' = products w
  /\ nextPage w' = nextPage w
  /\ aborted w' = abortedBy w
  /\ abortController w' = Some (S (controllersCreated w))
  /\ issued w' = issued w ++ searchRequest w term
  /\ inflight w' = inflight w ++ searchRequest w term
  /\ timers w' = timers w
  /\ debounceTimer w' = debounceTimer w.
Proof.
  cbn zeta.
  destruct (fetchProducts_starts w w term (sameNet_refl w))
    as [H1 H2 H3 H4 H5].
  repeat apply conj; try assumption; now autorewrite with frame.
Qed.

(** The run of [fetchProducts] that reaches its [fetch]. *)
Lemma fetchProducts_fetches (w : World) term u d :
  shadow w = Some d ->
  searchUrl term = Some u ->
  let w' := fetchProducts term w in
  loading w' = true
  /\ shadow w' = Some (setList (withIndicator (listContainer d)) d)
  /\ observer w' = observer w
  /\ liveObservers w' = liveObservers w.
Proof.
  intros Hd U. cbn zeta. unfold fetchProducts. rewrite U. unfold fetch.
  repeat apply conj;
    try (destruct (abortController w); fields; fail).
  cbn [shadow self set_inflight set_issued].
  erewrite updateLoadingState_tree
    by (destruct (abortController w); cbn; exact Hd).
  destruct (abortController w); reflexivity.
Qed.

(** The run of [fetchProducts] in which building the URL throws. *)
Lemma fetchProducts_throws (w : World) term d :
  shadow w = Some d ->
  searchUrl term = None ->
  let w' := fetchProducts term w in
  loading w' = false /\ shadow w' = Some (idleTree w).
Proof.
  intros Hd U. cbn zeta. unfold fetchProducts. rewrite U.
  split; [now autorewrite with frame|].
  set (w3 := updateLoadingState _).
  assert (T : shadow w3
              = Some (setList (withIndicator (listContainer d)) d)).
  { subst w3. erewrite updateLoadingState_tree
      by (destruct (abortController w); cbn; exact Hd).
    destruct (abortController w); reflexivity. }
  rewrite (updateList_idle (set_loading false w3) _ T eq_refl).
  unfold idleTree. cbn [shadow self set_loading products nextPage
                        sentinelsCreated env].
  rewrite T, Hd. subst w3. autorewrite with frame. cbn.
  destruct (abortController w); reflexivity.
Qed.

Lemma reachable_step (w : World) e : reachable w -> reachable (step w e).
Proof.
  intros [evs ->]. exists (evs ++ [e]). unfold run.
  now rewrite fold_left_app.
Qed.

Lemma find_snoc_fresh {A} (f : A -> bool) l x :
  (forall a, In a l -> f a = false) -> f x = true ->
  find f (l ++ [x]) = Some x.
Proof.
  intros H Hx. induction l as [|a l IH]; cbn.
  - now rewrite Hx.
  - rewrite (H a (or_introl eq_refl)). apply IH.
    intros b Hb. apply H. now right.
Qed.

(** The path on which C4 holds: a search started by the debounce timer
    whose fetch fails before anything else happens.  The closure of the
    timer has emptied [items] and cleared the cursor, so after the failure
    they are empty, [loading] is false and the list is the single "no
    results" entry. *)
Lemma debounced_failure_clears_items (w : World) id t u o :
  reachable w ->
  findTimer id w = Some t ->
  due t <= now w ->
  searchUrl (arg t) = Some u ->
  isFailure o ->
  isCancellation o = false ->
  let w1 := step w (TimerFires id) in
  let w2 := step w1 (Response (S (List.length (issued w))) o) in
  products w2 = []
  /\ nextPage w2 = None
  /\ loading w2 = false
  /\ exists d, shadow w2 = Some d /\ listContainer d = [NoResultsEl].
Proof.
  intros R F D U Ho Hc w1 w2.
  pose proof (reachable_step w (TimerFires id) R) as R1. fold w1 in R1.
  assert (E : w1 = fetchProducts (arg t)
                     (set_nextPage None
                        (set_products [] (clearTimeout id w)))).
  { unfold w1. cbn [step]. rewrite F.
    apply Nat.leb_le in D. now rewrite D. }
  destruct (fetchProducts_common
              (set_nextPage None (set_products [] (clearTimeout id w)))
              (arg t)) as (P & N & _ & C & _ & Hi & _).
  cbn zeta in P, N, C, Hi. rewrite <- E in P, N, C, Hi.
  autorewrite with frame in P, N. cbn in P, N.
  unfold searchRequest in Hi. rewrite U in Hi.
  set (r := newRequest w u (InFetchProducts (S (controllersCreated w)))).
  assert (Fr : findRequest (S (List.length (issued w))) w1 = Some r).
  { unfold findRequest. rewrite Hi. apply find_snoc_fresh.
    - intros a Ha.
      apply (rids_issued w (reachable_netInv w R)) in Ha.
      apply Nat.eqb_neq. lia.
    - apply Nat.eqb_refl. }
  pose proof (fresh_search_failure_outcome w1 _ r _ o R1 Fr eq_refl C Ho)
    as H.
  cbn zeta in H. rewrite Hc in H. fold w2 in H.
  destruct H as (L & P2 & N2 & d & Hd & _ & Hn).
  change (products w1 = []) in P. change (nextPage w1 = None) in N.
  repeat apply conj; [congruence | congruence | exact L |].
  exists d. split; [exact Hd | apply Hn, P].
Qed.

(** X7. When the debounce timer fires after its delay, [items] are
    emptied and the cursor is cleared at once, and the controller of the
    previous fresh search is aborted and replaced.  Then, for the empty
    term or a term that can be encoded, [loading] is raised and one fetch
    is issued for the URL of the term; the list is not rebuilt: its
    children stay as they were, with a loading indicator appended unless
    one is already there.  For a term that holds a lone surrogate nothing
    is fetched, [loading] is false again and the list is rebuilt to the
    single "no results" entry. *)
Theorem debounce_timer_starts_search (w : World) id t d :
  findTimer id w = Some t ->
  due t <= now w ->
  shadow w = Some d ->
  let w' := step w (TimerFires id) in
  products w' = []
  /\ nextPage w' = None
  /\ aborted w' = abortedBy w
  /\ abortController w' = Some (S (controllersCreated w))
  /\ timers w' = filter (fun x => negb (tid x =? id)) (timers w)
  /\ (forall u,
        fetchedFor (arg t) = [u] ->
        loading w' = true
        /\ issued w'
           = issued w
             ++ [newRequest w u (InFetchProducts (S (controllersCreated w)))]
        /\ shadow w' = Some (setList (withIndicator (listContainer d)) d))
  /\ (fetchedFor (arg t) = [] ->
      loading w' = false
      /\ issued w' = issued w
      /\ shadow w'
         = Some {| inputValue := inputValue d; inputSuggested := true;
                   listContainer := [NoResultsEl] |}).
Proof.
  intros F D Hd. cbn [step]. rewrite F.
  apply Nat.leb_le in D. rewrite D. unfold search.
  set (w0 := set_nextPage None (set_products [] (clearTimeout id w))).
  destruct (fetchProducts_common w0 (arg t))
    as (E1 & E2 & E3 & E4 & E5 & _ & E7 & _).
  rewrite <- !urlsOf_fetchedFor. unfold urlsOf.
  repeat apply conj; try assumption.
  - intros u U. destruct (searchUrl (arg t)) as [u'|] eqn:S;
      [|discriminate]. injection U as ->.
    destruct (fetchProducts_fetches w0 (arg t) u d Hd S) as (L & T & _).
    repeat apply conj; try assumption.
    rewrite E5. unfold searchRequest. now rewrite S.
  - intros U. destruct (searchUrl (arg t)) as [u'|] eqn:S;
      [discriminate|].
    destruct (fetchProducts_throws w0 (arg t) d Hd S) as (L & T).
    repeat apply conj; try assumption.
    + rewrite E5. unfold searchRequest. rewrite S. apply app_nil_r.
    + rewrite T. unfold idleTree. cbn. now rewrite Hd.
Qed.

Lemma debounce_timer_starts_search_witness :
  products (step typedOverList (TimerFires 1)) = []
  /\ shadow (step typedOverList (TimerFires 1))
     = Some {| inputValue := "hose"; inputSuggested := true;
               listContainer :=
                 [suggestionItem 0 valve; SentinelEl 1; LoadingEl] |}.
Proof.
  pose proof (debounce_timer_starts_search typedOverList 1
                {| tid := 1; due := 300; arg := "hose" |}
                {| inputValue := "hose"; inputSuggested := true;
                   listContainer := [suggestionItem 0 valve; SentinelEl 1] |})
    as H.
  vm_compute in H. vm_compute.
  destruct (H eq_refl (le_n 300) eq_refl) as (H1 & _ & _ & _ & _ & H6 & _).
  destruct (H6 _ eq_refl) as (_ & _ & H4).
  split; [exact H1 | exact H4].
Defined.

(** ** Scroll-driven continuation *)

Lemma intersection_cases (w : World) o b :
  step w (Intersection o b) = w
  \/ (step w (Intersection o b) = fetchMoreProducts w
      /\ exists sentinel,
           findObserver o w = Some (o, sentinel)
           /\ b = true
           /\ attached sentinel w = true
           /\ truthy (nextPage w) = true
           /\ loading w = false).
Proof.
  cbn [step]. destruct (findObserver o w) as [[o' s]|] eqn:F; [|now left].
  assert (o' = o).
  { unfold findObserver in F. apply find_some in F.
    destruct F as [_ E]. now apply Nat.eqb_eq in E. }
  subst o'. unfold onIntersection.
  destruct b; cbn [andb]; [|now left].
  destruct (attached s w) eqn:A; cbn [andb]; [|now left].
  destruct (truthy (nextPage w)) eqn:T; cbn [andb]; [|now left].
  destruct (loading w) eqn:L; cbn [negb]; [now left|].
  right. split; [reflexivity|]. exists s. auto.
Qed.

Lemma fetchMoreProducts_effect (w : World) :
  truthy (nextPage w) = true ->
  loading w = false ->
  exists u,
    nextPage w = Some u
    /\ u <> EmptyString
    /\ issued (fetchMoreProducts w)
       = issued w ++ [newRequest w u InFetchMoreProducts]
    /\ inflight (fetchMoreProducts w)
       = inflight w ++ [newRequest w u InFetchMoreProducts]
    /\ loading (fetchMoreProducts w) = true
    /\ products (fetchMoreProducts w) = products w
    /\ nextPage (fetchMoreProducts w) = nextPage w
    /\ aborted (fetchMoreProducts w) = aborted w
    /\ abortController (fetchMoreProducts w) = abortController w.
Proof.
  intros T L. destruct (nextPage w) as [u|] eqn:N; [|discriminate].
  exists u. split; [reflexivity|]. split; [intros ->; discriminate|].
  unfold fetchMoreProducts. rewrite N, T, L. cbn [negb orb].
  autorewrite with frame. cbn [nextPage self set_loading]. rewrite N.
  unfold fetch. repeat apply conj; fields. exact N.
Qed.

(** X8. A notification of the intersection observer either changes
    nothing at all, or (the observer being live, its sentinel being in
    the list and intersecting, the cursor being a non-empty string and no
    load running) issues exactly one continuation fetch, for the cursor
    taken as it is and with no abort signal, raises [loading], and leaves
    [items], the cursor and the controllers untouched. *)
Theorem intersection_issues_one_continuation (w : World) o b :
  let w' := step w (Intersection o b) in
  w' = w
  \/ exists sentinel u,
       findObserver o w = Some (o, sentinel)
       /\ b = true
       /\ attached sentinel w = true
       /\ nextPage w = Some u
       /\ u <> EmptyString
       /\ loading w = false
       /\ issued w' = issued w ++ [newRequest w u InFetchMoreProducts]
       /\ inflight w' = inflight w ++ [newRequest w u InFetchMoreProducts]
       /\ signal (newRequest w u InFetchMoreProducts) = None
       /\ loading w' = true
       /\ products w' = products w
       /\ nextPage w' = nextPage w
       /\ aborted w' = aborted w
       /\ abortController w' = abortController w.
Proof.
  cbn zeta.
  destruct (intersection_cases w o b)
    as [E | (E & s & F & Hb & A & T & L)]; [now left|].
  right. rewrite E.
  destruct (fetchMoreProducts_effect w T L)
    as (u & N & Hu & H1 & H2 & H3 & H4 & H5 & H6 & H7).
  exists s, u. repeat apply conj; try assumption. reflexivity.
Qed.

(** X9. Right after a detach in a reachable state no observer is live,
    so no notification of an intersection observer does anything. *)
Theorem no_scroll_trigger_after_detach (w : World) o b :
  reachable w ->
  liveObservers (step w Disconnected) = []
  /\ step (step w Disconnected) (Intersection o b) = step w Disconnected.
Proof.
  intro R.
  assert (L : liveObservers (step w Disconnected) = [])
    by apply (detach_disconnects_observer w (reachable_obsInv w R)).
  split; [exact L|].
  cbn [step] in *. unfold findObserver. now rewrite L.
Qed.

Lemma no_scroll_trigger_after_detach_witness :
  liveObservers listed = [(1, 1)]
  /\ step (step listed Disconnected) (Intersection 1 true)
     = step listed Disconnected.
Proof.
  split; [vm_compute; reflexivity|].
  apply (no_scroll_trigger_after_detach listed 1 true).
  eexists. reflexivity.
Defined.

(** ** Requests and the loading flag *)

Lemma fetchProducts_issues (w0 w : World) term :
  sameNet w0 w ->
  issued (fetchProducts term w) = issued w0
  \/ (exists u a,
        issued (fetchProducts term w) = issued w0 ++ [newRequest w0 u a]
        /\ inflight (fetchProducts term w)
           = inflight w0 ++ [newRequest w0 u a])
     /\ loading (fetchProducts term w) = true.
Proof.
  intro N. destruct (fetchProducts_starts w0 w term N) as [_ _ _ H4 H5].
  unfold searchRequest in H4, H5.
  destruct (searchUrl term) as [u|] eqn:U.
  - right. split; [eauto|].
    unfold fetchProducts, fetch. rewrite U.
    destruct (abortController w); fields.
  - left. now rewrite H5, app_nil_r.
Qed.

(** X10. One event issues at most one fetch, and whenever it issues one
    the request is also pending and [loading] is true afterwards. *)
Theorem every_fetch_raises_loading (w : World) e :
  issued (step w e) = issued w
  \/ (exists u a,
        issued (step w e) = issued w ++ [newRequest w u a]
        /\ inflight (step w e) = inflight w ++ [newRequest w u a])
     /\ loading (step w e) = true.
Proof.
  destruct e; cbn [step].
  - apply fetchProducts_issues. now split.
  - left. apply disconnectedCallback_net.
  - left. destruct (shadow w); [apply typed_net | reflexivity].
  - left. destruct (shadow w); [apply typed_net | reflexivity].
  - now left.
  - destruct (findTimer id w) as [t|]; [|now left].
    destruct (due t <=? now w); [|now left].
    apply fetchProducts_issues. now split.
  - left. destruct (findRequest rid0 w) as [r|]; [|reflexivity].
    destruct (awaiter r).
    + apply (fetchProducts_resume_net (dropRequest rid0 w)).
    + apply (fetchMoreProducts_resume_net (dropRequest rid0 w)).
  - destruct (intersection_cases w observer0 isIntersecting)
      as [E | (E & s & _ & _ & _ & T & L)]; cbn [step] in *.
    + left. now rewrite E.
    + right. rewrite E.
      destruct (fetchMoreProducts_effect w T L)
        as (u & _ & _ & H1 & H2 & H3 & _).
      split; [eauto | exact H3].
Qed.

(** ** Attaching the element *)

(** X11. Every attach rebuilds the shadow tree (input without the class
    "suggested", list holding one loading indicator), raises [loading],
    aborts the controller of the previous fresh search and issues one
    fetch for the unfiltered catalogue URL; it keeps [items] and the
    cursor as they were, and neither clears an armed debounce timer nor
    disconnects a live observer. *)
Theorem attach_renders_and_fetches_unfiltered (w : World) :
  let w' := step w Connected in
  shadow w'
  = Some {| inputValue := EmptyString; inputSuggested := false;
            listContainer := [LoadingEl] |}
  /\ loading w' = true
  /\ products w' = products w
  /\ nextPage w' = nextPage w
  /\ aborted w' = abortedBy w
  /\ abortController w' = Some (S (controllersCreated w))
  /\ issued w'
     = issued w
       ++ [newRequest w baseUrl
             (InFetchProducts (S (controllersCreated w)))]
  /\ timers w' = timers w
  /\ liveObservers w' = liveObservers w.
Proof.
  cbn [step]. unfold connectedCallback.
  destruct (fetchProducts_common (render w) EmptyString)
    as (E1 & E2 & E3 & E4 & E5 & _ & E7 & _).
  destruct (fetchProducts_fetches (render w) EmptyString baseUrl
              {| inputValue := EmptyString; inputSuggested := false;
                 listContainer := [LoadingEl] |} eq_refl eq_refl)
    as (L & T & _ & O).
  repeat apply conj; assumption.
Qed.

(** ** Several continuation pages *)

Lemma appendPages_cons (w : World) p pages :
  appendPages w (p :: pages)
  = appendPages (fetchMoreProducts_resume (Ok200 p) w) pages.
Proof. reflexivity. Qed.

(** X12. Handing successive pages to the success path of
    [fetchMoreProducts] leaves in [items] the previous items followed by
    the results of all the pages, in the order of arrival, and in the
    cursor the [next] of the last page. *)
Theorem continuation_pages_accumulate (pages : list ApiResponse) :
  forall w : World,
    products (appendPages w pages)
    = products w ++ List.concat (map results pages)
    /\ nextPage (appendPages w pages)
       = last (map next pages) (nextPage w).
Proof.
  induction pages as [|p pages IH]; intro w.
  - cbn. now rewrite app_nil_r.
  - rewrite appendPages_cons.
    destruct (IH (fetchMoreProducts_resume (Ok200 p) w)) as [H1 H2].
    destruct (fetchMoreProducts_resume_ok w p) as (P & N & _).
    cbn zeta in P, N. rewrite H1, H2, P, N.
    cbn [map List.concat]. rewrite last_cons, app_assoc. auto.
Qed.

(** ** What changes the items *)

(** X13. Only two kinds of event write [items] or the cursor: a debounce
    timer that fires, which empties both, and a settled fetch.  Attaching,
    detaching, typing, clearing, the passing of time and intersection
    notifications leave both as they are. *)
Theorem items_written_only_by_timer_and_response (w : World) e :
  (products (step w e) = products w /\ nextPage (step w e) = nextPage w)
  \/ (exists id, e = TimerFires id
                 /\ products (step w e) = []
                 /\ nextPage (step w e) = None)
  \/ (exists id o, e = Response id o).
Proof.
  destruct e; cbn [step].
  - left. unfold connectedCallback. split; now autorewrite with frame.
  - left. unfold disconnectedCallback. destruct (observer w); auto.
  - left. destruct (shadow w); [|auto]. unfold handleSearch.
    destruct (debounceTimer _) as [[|]|]; split; fields.
  - left. destruct (shadow w); [|auto]. unfold handleSearch.
    destruct (debounceTimer _) as [[|]|]; split; fields.
  - left. auto.
  - destruct (findTimer id w) as [t|]; [|left; auto].
    destruct (due t <=? now w); [|left; auto].
    right. left. exists id. split; [reflexivity|].
    unfold search. split; now autorewrite with frame.
  - right. right. eauto.
  - left.
    destruct (intersection_cases w observer0 isIntersecting)
      as [E | (E & s & _ & _ & _ & T & L)]; cbn [step] in *;
      rewrite E; [auto|].
    destruct (fetchMoreProducts_effect w T L)
      as (u & _ & _ & _ & _ & _ & P & N & _).
    auto.
Qed.
